(** * PyRCN: the recurrent layer of [pyrcn/layers/_recurrent_layer.py]

    A shallow embedding of [BaseRecurrentLayer] and [RecurrentLayer]:
    parameter validation, the generation of the weight matrices, the
    fit/transform life cycle, and the properties the specification
    states about them.

    Conventions.
    - Python integers are [Z]; array lengths and indices are [nat].
    - float64 values are an abstract type [F] with the operations the
      source applies to them (class [Numpy]); no property below depends on
      rounding.
    - The instance dictionary ([vars(self)]) is the constructor's
      parameters (record [LayerConfig]) plus a finite map from attribute
      names to values for everything assigned later.
    - A Python call is a function from the world to the world and either
      an exception or a value: what a call did before it raised stays
      done.
    - Inputs are nested sequences of numbers; sparse inputs, and with
      them the effect of [dense_output] on the representation of the
      result, are not modelled.
    - The output of a call is what this module hands to
      [warnings.warn] and [print]; the warnings numpy raises about
      floating-point overflow are not part of it.
    - A name is bound if the module imports or defines it (lines 1 to
      14 and 127) or it is a builtin. [eigens] and [ArpackNoConvergence]
      are neither: evaluating them raises [NameError]. *)

From Stdlib Require Import ZArith List Ascii String Lia Permutation QArith Qabs Qminmax Lqa.
From stdpp Require Import gmap strings list.

Open Scope Z_scope.

(** ** numpy: scalars and random generators *)

(** [F] stands for float64, [C] for the complex eigenvalue estimates,
    [G] for the internal state of a [numpy.random.RandomState]. *)
Class Numpy (F C G : Type) := {
  f0 : F;
  f1 : F;
  f2 : F;
  fadd : F → F → F;
  fsub : F → F → F;
  fmul : F → F → F;
  fdiv : F → F → F;
  fmaximum : F → F → F;
  absolute : C → F;
  isfinite : F → bool;
  fle : F → F → Prop;
  flt : F → F → Prop;
  (** [np.random.RandomState(seed)] *)
  RandomState : Z → G;
  (** [g.rand(n)]: n draws, uniform on [0, 1) *)
  rand : nat → G → list F * G;
  (** [g.randn(n)]: n standard normal draws *)
  randn : nat → G → list F * G;
  (** [g.permutation(n)]: a shuffled [range(n)] *)
  permutation : nat → G → list nat * G
}.

(** What numpy documents about the generator. *)
Class NumpyLaws (F C G : Type) `{Numpy F C G} := {
  rand_length : ∀ n g, length (rand n g).1 = n;
  randn_length : ∀ n g, length (randn n g).1 = n;
  permutation_Permutation : ∀ n g, Permutation (permutation n g).1 (seq 0 n);
  rand_unit : ∀ n g u, In u (rand n g).1 → fle f0 u ∧ flt u f1;
  (** [u * 2 - 1] maps [0, 1) into [-1, 1) *)
  scale_unit : ∀ u, fle f0 u → flt u f1 →
    fle (fsub f0 f1) (fsub (fmul u f2) f1) ∧ flt (fsub (fmul u f2) f1) f1
}.

(** ** Arrays *)

(** A two-dimensional [ndarray]: its shape and its rows. *)
Record ndarray (F : Type) := mk_ndarray {
  nd_shape : nat * nat;
  nd_rows : list (list F)
}.
Arguments mk_ndarray {F} _ _.
Arguments nd_shape {F} _.
Arguments nd_rows {F} _.

(** A [scipy.sparse] matrix as built from [(data, ij)]: entry [n] of
    [data] sits at row [ij[0][n]], column [ij[1][n]]; entries that share
    a position add up. *)
Record csc_matrix (F : Type) := mk_csc {
  csc_shape : nat * nat;
  csc_data : list F;
  csc_row : list nat;
  csc_col : list nat
}.
Arguments mk_csc {F} _ _ _ _.
Arguments csc_shape {F} _.
Arguments csc_data {F} _.
Arguments csc_row {F} _.
Arguments csc_col {F} _.

Inductive matrix (F : Type) :=
| Dense (a : ndarray F)
| Sparse (s : csc_matrix F).
Arguments Dense {F} _.
Arguments Sparse {F} _.

(** ** Exceptions, output and values *)

Inductive fmt_arg :=
| FInt (z : Z)
| FStr (s : string)
| FKeys (ks : list string).

Inductive exn (C : Type) :=
| ValueError (msg : string) (args : list fmt_arg)
| TypeError (msg : string)
| AttributeError (attr : string)
| NameError (name : string)
| KeyError (key : string)
| AssertionError (msg : string)
| NotFittedError
| OverflowError (msg : string).
Arguments ValueError {C} _ _.
Arguments TypeError {C} _.
Arguments AttributeError {C} _.
Arguments NameError {C} _.
Arguments KeyError {C} _.
Arguments AssertionError {C} _.
Arguments NotFittedError {C}.
Arguments OverflowError {C} _.

(** What a call shows the user without raising. *)
Inductive event :=
| Warn (msg : string) (args : list fmt_arg)
| Print (msg : string) (args : list fmt_arg).

(** Values of the attributes assigned after construction. A generator
    is held by reference: [VRandomState g] is a [RandomState] object of
    its own, in state [g]; [VNpRandom] is numpy's global generator (the
    module [np.random], or what [check_random_state(None)] returns),
    whose state is the world's. *)
Inductive value (F G : Type) :=
| VInt (z : Z)
| VMatrix (m : matrix F)
| VVector (v : list F)
| VRandomState (g : G)
| VNpRandom.
Arguments VInt {F G} _.
Arguments VMatrix {F G} _.
Arguments VVector {F G} _.
Arguments VRandomState {F G} _.
Arguments VNpRandom {F G}.

(** ** The constructor's parameters *)

Record LayerConfig (F : Type) := mk_config {
  n_components : Z;
  dense_output : bool;
  input_scaling : F;
  k_in : Z;
  bias_scaling : F;
  activation_function : string;
  spectral_radius : F;
  k_rec : Z;
  bi_directional : bool;
  (** [None] or an integer seed *)
  random_state : option Z
}.
Arguments mk_config {F} _ _ _ _ _ _ _ _ _ _.
Arguments n_components {F} _.
Arguments dense_output {F} _.
Arguments input_scaling {F} _.
Arguments k_in {F} _.
Arguments bias_scaling {F} _.
Arguments activation_function {F} _.
Arguments spectral_radius {F} _.
Arguments k_rec {F} _.
Arguments bi_directional {F} _.
Arguments random_state {F} _.

(** ** The world a call runs in *)

Record world (F G : Type) := mk_world {
  (** attributes of [self] assigned after [__init__] *)
  attrs : gmap string (value F G);
  (** numpy's global generator, used when [random_state] is [None] *)
  np_random : G;
  (** what the module passed to [warnings.warn] and [print], oldest
      first *)
  output : list event
}.
Arguments mk_world {F G} _ _ _.
Arguments attrs {F G} _.
Arguments np_random {F G} _.
Arguments output {F G} _.

(** ** A name the module imports from outside the sources *)

(** [ACTIVATIONS] of [pyrcn.activation_functions], which is not among
    the sources: a parameter, a dictionary from a name to a function
    that is applied to every entry of an array (the specification calls
    the activations pure elementwise functions). *)
Class Registry (F : Type) := ACTIVATIONS : gmap string (F → F).

Section Model.
Context {F C G : Type} `{Numpy F C G} `{Registry F}.

(** ** Calls: state and exceptions *)

Definition M (A : Type) : Type := world F G → world F G * (exn C + A).

Definition ret {A} (a : A) : M A := λ w, (w, inr a).
Definition raise {A} (e : exn C) : M A := λ w, (w, inl e).
Definition bind {A B} (m : M A) (k : A → M B) : M B :=
  λ w, match m w with
       | (w', inl e) => (w', inl e)
       | (w', inr a) => k a w'
       end.

#[global] Instance M_ret : MRet M := @ret.
#[global] Instance M_bind : MBind M := λ A B k m, bind m k.

Definition emit (e : event) : M unit :=
  λ w, (mk_world (attrs w) (np_random w) (output w ++ [e]), inr tt).

(** [self.name = v] *)
Definition setattr (name : string) (v : value F G) : M unit :=
  λ w, (mk_world (<[name := v]> (attrs w)) (np_random w) (output w), inr tt).

(** [self.name]; the constructor's parameters are read from the
    [LayerConfig] directly, so this is for every other attribute. *)
Definition getattr (name : string) : M (value F G) :=
  λ w, match attrs w !! name with
       | Some v => (w, inr v)
       | None => (w, inl (AttributeError name))
       end.

Definition getattr_int (name : string) : M Z :=
  v ← getattr name;
  match v with
  | VInt z => ret z
  | _ => raise (TypeError name)
  end.

(** ** [BaseRecurrentLayer._validate_parameters] *)

Definition _validate_parameters (self : LayerConfig F) (n_features : Z) : M unit :=
  (if (k_in self <? 1) && negb (k_in self =? -1)
   then raise (ValueError "k_in must be -1 or greater than 0, got %s" [FInt (k_in self)])
   else ret tt);;
  (if n_features <? k_in self
   then raise (ValueError "k_in must not be larger than %s, got %s"
                 [FInt n_features; FInt (k_in self)])
   else ret tt);;
  (if n_components self <=? 0
   then raise (ValueError "n_components must be greater than 0, got %s"
                 [FInt (n_components self)])
   else if n_components self <=? n_features
   then emit (Warn ("The number of components is smaller than the number of features: "
                    ++ "n_components < n_features(%s < %s)")
                [FInt (n_components self); FInt n_features])
   else ret tt);;
  (match ACTIVATIONS !! activation_function self with
   | None => raise (ValueError ("The reservoir_activation '%s' is not supported. "
                                ++ "Supported activations are %s.")
                      [FStr (activation_function self);
                       FKeys (map fst (map_to_list ACTIVATIONS))])
   | Some _ => ret tt
   end);;
  (if (k_rec self <? 1) && negb (k_rec self =? -1)
   then raise (ValueError "k_rec must be -1 or greater than 0, got %s" [FInt (k_rec self)])
   else ret tt);;
  (if n_components self <? k_rec self
   then raise (ValueError "k_in must not be larger than %s, got %s"
                 [FInt (n_components self); FInt (k_in self)])
   else ret tt).

(** ** Array operations *)

Definition matrix_shape (m : matrix F) : nat * nat :=
  match m with
  | Dense a => nd_shape a
  | Sparse s => csc_shape s
  end.

(** The stored entries of a sparse matrix, as [(data, row, column)]. *)
Definition csc_entries (s : csc_matrix F) : list (F * (nat * nat)) :=
  zip (csc_data s) (zip (csc_row s) (csc_col s)).

(** [m[i, j]]; in a sparse matrix the entries stored at [(i, j)] add up. *)
Definition entry (m : matrix F) (i j : nat) : F :=
  match m with
  | Dense a => nth j (nth i (nd_rows a) []) f0
  | Sparse s =>
      fold_left (λ acc e, if Nat.eqb e.2.1 i && Nat.eqb e.2.2 j then fadd acc e.1 else acc)
        (csc_entries s) f0
  end.

(** [m.T] *)
Definition transpose (m : matrix F) : matrix F :=
  match m with
  | Dense a =>
      Dense (mk_ndarray ((nd_shape a).2, (nd_shape a).1)
               (map (λ j, map (λ r, nth j r f0) (nd_rows a)) (seq 0 (nd_shape a).2)))
  | Sparse s => Sparse (mk_csc ((csc_shape s).2, (csc_shape s).1)
                          (csc_data s) (csc_col s) (csc_row s))
  end.

(** One entry of a product: row [a] against column [j] of [b], summed
    from the left. *)
Definition dot (a : list F) (b : matrix F) (j : nat) : F :=
  fold_left (λ acc k, fadd acc (fmul (nth k a f0) (entry b k j))) (seq 0 (length a)) f0.

(** [safe_sparse_dot(a, b, dense_output=...)] for a dense [a]: the
    product is dense whatever [dense_output] says. The
    [RuntimeWarning] numpy raises when a sum or product overflows is
    not recorded. *)
Definition safe_sparse_dot (a : ndarray F) (b : matrix F) : M (ndarray F) :=
  if Nat.eqb (nd_shape a).2 (matrix_shape b).1
  then ret (mk_ndarray ((nd_shape a).1, (matrix_shape b).2)
              (map (λ r, map (dot r b) (seq 0 (matrix_shape b).2)) (nd_rows a)))
  else raise (ValueError "shapes (%s,%s) and (%s,%s) not aligned"
                [FInt (Z.of_nat (nd_shape a).1); FInt (Z.of_nat (nd_shape a).2);
                 FInt (Z.of_nat (matrix_shape b).1); FInt (Z.of_nat (matrix_shape b).2)]).

(** [a + v] for a two-dimensional [a] and a vector [v], with numpy's
    broadcasting: [v] runs along the rows; a length of one stretches. *)
Definition add_broadcast (a : ndarray F) (v : list F) : M (ndarray F) :=
  if Nat.eqb (length v) (nd_shape a).2
  then ret (mk_ndarray (nd_shape a)
              (map (λ r, map (λ xb, fadd xb.1 xb.2) (zip r v)) (nd_rows a)))
  else if Nat.eqb (length v) 1
  then ret (mk_ndarray (nd_shape a)
              (map (λ r, map (λ x, fadd x (nth 0 v f0)) r) (nd_rows a)))
  else if Nat.eqb (nd_shape a).2 1
  then ret (mk_ndarray ((nd_shape a).1, length v)
              (map (λ r, map (λ b, fadd (nth 0 r f0) b) v) (nd_rows a)))
  else raise (ValueError "operands could not be broadcast together with shapes (%s,%s) (%s,)"
                [FInt (Z.of_nat (nd_shape a).1); FInt (Z.of_nat (nd_shape a).2);
                 FInt (Z.of_nat (length v))]).

(** An activation applied to an array. *)
Definition apply_activation (f : F → F) (a : ndarray F) : ndarray F :=
  mk_ndarray (nd_shape a) (map (map f) (nd_rows a)).

(** ** sklearn's validation helpers *)

(** [check_array(X, accept_sparse=['csr', 'csc'])] on nested sequences of
    numbers: they must form a two-dimensional array of finite values with
    at least one row and one column. *)
Definition check_array (X : list (list F)) : M (ndarray F) :=
  match X with
  | [] => raise (ValueError "Expected 2D array, got 1D array instead" [])
  | r :: _ =>
      if negb (forallb (λ r', Nat.eqb (length r') (length r)) X)
      then raise (ValueError "setting an array element with a sequence." [])
      else if negb (forallb (forallb isfinite) X)
      then raise (ValueError "Input contains NaN, infinity or a value too large for dtype('float64')." [])
      else if Nat.eqb (length r) 0
      then raise (ValueError "Found array with 0 feature(s) (shape=(%s, 0)) while a minimum of 1 is required."
                    [FInt (Z.of_nat (length X))])
      else ret (mk_ndarray (length X, length r) X)
  end.

(** [BaseEstimator._validate_data(X, ...)]: [check_array], then the
    number of features is recorded as [n_features_in_]. *)
Definition _validate_data (X : list (list F)) : M (ndarray F) :=
  X ← check_array X;
  setattr "n_features_in_" (VInt (Z.of_nat (nd_shape X).2));;
  ret X.

Fixpoint endswith_underscore (s : string) : bool :=
  match s with
  | EmptyString => false
  | String c EmptyString => Ascii.eqb c "_"%char
  | String _ s' => endswith_underscore s'
  end.

(** The attributes [check_is_fitted] looks for: [v.endswith("_") and not
    v.startswith("__")]. None of the constructor's ten parameters is one. *)
Definition fitted_attribute (v : string) : bool :=
  endswith_underscore v && negb (String.prefix "__" v).

(** [check_is_fitted(self)] *)
Definition check_is_fitted : M unit :=
  λ w, if existsb fitted_attribute (map fst (map_to_list (attrs w)))
       then (w, inr tt)
       else (w, inl NotFittedError).

Definition getattr_matrix (name : string) : M (matrix F) :=
  v ← getattr name;
  match v with
  | VMatrix m => ret m
  | _ => raise (TypeError name)
  end.

Definition getattr_vector (name : string) : M (list F) :=
  v ← getattr name;
  match v with
  | VVector b => ret b
  | _ => raise (TypeError name)
  end.

(** ** [BaseRecurrentLayer.transform] *)

Definition transform (self : LayerConfig F) (X : list (list F)) : M (ndarray F) :=
  X ← check_array X;
  check_is_fitted;;
  input_weights_ ← getattr_matrix "input_weights_";
  if negb (Nat.eqb (nd_shape X).2 (matrix_shape input_weights_).2)
  then raise (ValueError ("Impossible to perform projection:"
                          ++ "X at fit stage had a different number of features. (%s != %s)")
                [FInt (Z.of_nat (nd_shape X).2);
                 FInt (Z.of_nat (matrix_shape input_weights_).2)])
  else
    product ← safe_sparse_dot X (transpose input_weights_);
    bias_weights_ ← getattr_vector "bias_weights_";
    input_plus_bias ← add_broadcast product bias_weights_;
    match ACTIVATIONS !! activation_function self with
    | None => raise (KeyError (activation_function self))
    | Some f => ret (apply_activation f input_plus_bias)
    end.

(** ** Random generators in use *)

(** Which generator a name refers to: numpy's global one, one created
    by the call itself, or the object stored in [self._random_state].
    The first and the last outlive the call, and so do the draws made
    from them. *)
Inductive generator :=
| NpRandom
| Fresh (g : G)
| SelfRandomState.

(** [check_random_state(seed)] for [None] or an integer *)
Definition check_random_state (seed : option Z) : M generator :=
  match seed with
  | None => ret NpRandom
  | Some s =>
      if (0 <=? s) && (s <? 2 ^ 32)
      then ret (Fresh (RandomState s))
      else raise (ValueError "Seed must be between 0 and 2**32 - 1" [])
  end.

(** One call of a generator method: the generator moves on. The lookup
    of [self._random_state] is part of the call. *)
Definition draw {A} (method : string) (f : G → A * G) (r : generator) : M (A * generator) :=
  match r with
  | NpRandom =>
      λ w, let '(a, g) := f (np_random w) in
           (mk_world (attrs w) g (output w), inr (a, NpRandom))
  | Fresh g => let '(a, g') := f g in ret (a, Fresh g')
  | SelfRandomState =>
      v ← getattr "_random_state";
      match v with
      | VRandomState g =>
          let '(a, g') := f g in
          setattr "_random_state" (VRandomState g');;
          ret (a, SelfRandomState)
      | VNpRandom =>
          λ w, let '(a, g) := f (np_random w) in
               (mk_world (attrs w) g (output w), inr (a, SelfRandomState))
      | _ => raise (AttributeError method)
      end
  end.

(** [self._random_state.method], looked up before the arguments of the
    call are. *)
Definition has_method (method : string) : M unit :=
  v ← getattr "_random_state";
  match v with
  | VRandomState _ | VNpRandom => ret tt
  | _ => raise (AttributeError method)
  end.

(** A requested array length. *)
Definition checked_size (n : Z) : M nat :=
  if n <? 0
  then raise (ValueError "negative dimensions are not allowed" [])
  else ret (Z.to_nat n).

(** ** Integers, slices and the sparse constructor *)

(** [np.int32(z)] for a Python integer: [z] when it fits in 32 bits,
    [OverflowError] when it does not. (That is NumPy 2; NumPy 1 wrapped
    around instead, with a deprecation warning from 1.24 on.) *)
Definition np_int32 (z : Z) : M Z :=
  if (z <? - 2 ^ 31) || (2 ^ 31 <=? z)
  then raise (OverflowError "Python integer out of bounds for int32")
  else ret z.

(** Python's reading of one slice index on a sequence of length [len]. *)
Definition slice_index (len : nat) (i : Z) : nat :=
  Z.to_nat (if i <? 0 then Z.max (i + Z.of_nat len) 0 else Z.min i (Z.of_nat len)).

(** Where [a[start:stop]] begins and how long it is. *)
Definition slice_bounds (len : nat) (start stop : Z) : nat * nat :=
  (slice_index len start, (slice_index len stop - slice_index len start)%nat).

(** [l[:k]] *)
Definition slice_take {A} (l : list A) (k : Z) : list A :=
  firstn (slice_bounds (length l) 0 k).2 l.

Definition replace_slice {A} (a : list A) (start len : nat) (vs : list A) : list A :=
  firstn start a ++ vs ++ skipn (start + len) a.

(** [a[start:stop] = v] for a number [v] *)
Definition slice_assign_scalar (a : list nat) (start stop : Z) (v : nat) : list nat :=
  let '(s, n) := slice_bounds (length a) start stop in
  replace_slice a s n (repeat v n).

(** [a[start:stop] = vs] for an array [vs]: the lengths must agree,
    except that a single value stretches. *)
Definition slice_assign_array (a : list nat) (start stop : Z) (vs : list nat) : M (list nat) :=
  let '(s, n) := slice_bounds (length a) start stop in
  if Nat.eqb (length vs) n
  then ret (replace_slice a s n vs)
  else if Nat.eqb (length vs) 1
  then ret (replace_slice a s n (repeat (nth 0 vs 0%nat) n))
  else raise (ValueError "could not broadcast input array from shape (%s,) into shape (%s,)"
                [FInt (Z.of_nat (length vs)); FInt (Z.of_nat n)]).

(** [scipy.sparse.csc_matrix((data, ij), shape=shape, dtype='float64')] *)
Definition csc_matrix_from (data : list F) (ij0 ij1 : list nat) (shape : Z * Z)
  : M (matrix F) :=
  if (shape.1 <? 0) || (shape.2 <? 0)
  then raise (ValueError "'shape' elements cannot be negative" [])
  else if negb (Nat.eqb (length ij0) (length data) && Nat.eqb (length ij1) (length data))
  then raise (ValueError "row, column, and data array must all be the same length" [])
  else if existsb (λ r, shape.1 <=? Z.of_nat r) ij0
  then raise (ValueError "row index exceeds matrix dimensions" [])
  else if existsb (λ c, shape.2 <=? Z.of_nat c) ij1
  then raise (ValueError "column index exceeds matrix dimensions" [])
  else ret (Sparse (mk_csc (Z.to_nat shape.1, Z.to_nat shape.2) data ij0 ij1)).

(** [l.reshape(n, m)], row by row *)
Fixpoint reshape {A} (n m : nat) (l : list A) : list (list A) :=
  match n with
  | O => []
  | S n' => firstn m l :: reshape n' m (skipn m l)
  end.

(** [x * 2 - 1] *)
Definition times2_minus1 (x : F) : F := fsub (fmul x f2) f1.

(** ** The connectivity of one matrix *)

(** The body of [for en in range(rows)]: a permutation of the columns
    gives the [k] column positions of row [en]. *)
Definition connect_row (cols k : Z) (st : list nat * list nat * Z * generator) (en : nat)
  : M (list nat * list nat * Z * generator) :=
  let '(ij0, ij1, idx_co, r) := st in
  '(p, r) ← draw "permutation" (permutation (Z.to_nat cols)) r;
  let per := slice_take p k in
  let ij0 := slice_assign_scalar ij0 idx_co (idx_co + k) en in
  ij1 ← slice_assign_array ij1 idx_co (idx_co + k) per;
  ret (ij0, ij1, idx_co + k, r).

Fixpoint for_range {S} (body : S → nat → M S) (ens : list nat) (st : S) : M S :=
  match ens with
  | [] => ret st
  | en :: ens' => st' ← body st en; for_range body ens' st'
  end.

(** The two branches that build a [rows] by [cols] matrix with [k]
    entries per row ([k == -1]: every entry), as the source writes them
    once for the feedforward and once for the recurrent weights.
    [sample n] draws the [n] values and [scale] is applied to each. *)
Definition dense_weights (sample : nat → G → list F * G) (method : string) (scale : F → F)
    (rows cols : Z) (r : generator) : M (matrix F * generator) :=
  n ← checked_size rows;
  m ← checked_size cols;
  '(values, r) ← draw method (sample (n * m)%nat) r;
  ret (Dense (mk_ndarray (n, m) (reshape n m (map scale values))), r).

Definition sparse_weights (sample : nat → G → list F * G) (method : string) (scale : F → F)
    (rows cols k : Z) (r : generator) : M (matrix F * generator) :=
  nr_entries ← np_int32 (rows * k);
  n ← checked_size nr_entries;
  let ij0 := repeat 0%nat n in
  let ij1 := repeat 0%nat n in
  '(values, r) ← draw method (sample n) r;
  let data_vec := map scale values in
  '(ij0, ij1, _, r) ← for_range (connect_row cols k) (seq 0 (Z.to_nat rows)) (ij0, ij1, 0, r);
  m ← csc_matrix_from data_vec ij0 ij1 (rows, cols);
  ret (m, r).

(** ** [RecurrentLayer._initialize_weight_matrices] *)

(** Lines 142 to 154: the feedforward weights. *)
Definition feedforward_weight_matrix (self : LayerConfig F) (n_features : Z)
    (random_state : generator) : M (matrix F * generator) :=
  n_components_ ← getattr_int "n_components_";
  if k_in self =? -1
  then dense_weights rand "rand" times2_minus1 n_components_ n_features random_state
  else sparse_weights rand "rand" times2_minus1 n_components_ n_features (k_in self)
         random_state.

(** Lines 162 to 177: one raw recurrent matrix. The size, the fan-in and
    the generator are read from [self.reservoir_size], [self.k_res] and
    [self._random_state]. *)
Definition reservoir_weights_draw : M (matrix F) :=
  k_res ← getattr_int "k_res";
  if k_res =? -1
  then
    has_method "randn";;
    reservoir_size ← getattr_int "reservoir_size";
    '(m, _) ← dense_weights randn "randn" id reservoir_size reservoir_size SelfRandomState;
    ret m
  else
    reservoir_size ← getattr_int "reservoir_size";
    '(m, _) ← sparse_weights randn "randn" id reservoir_size reservoir_size k_res
                SelfRandomState;
    ret m.

(** A name that nothing binds: evaluating it raises [NameError], and
    what would have used its value is not reached. *)
Definition unbound_name {A} (name : string) : M A := raise (NameError name).

(** What line 178 asks of the value of [eigens], a function from a
    matrix to its eigenvalue estimates, and what lines 180 and 185 ask
    of the value of [ArpackNoConvergence], a class of exceptions with a
    class attribute [eigenvalues]. *)
Definition solver : Type := matrix F → exn C + list C.

Record exception_class := mk_exception_class {
  isinstance : exn C → bool;
  class_eigenvalues : option (list C)
}.

Definition call (f : solver) (m : matrix F) : M (list C) :=
  match f m with
  | inl e => raise e
  | inr we => ret we
  end.

(** Lines 160 to 186: [while not converged and attempts > 0]. The state
    is the pair of locals [reservoir_weights_init] and [we]. An
    exception from the body of [try], the [NameError] of line 178
    included, reaches the [except] clause of line 180, which evaluates
    [ArpackNoConvergence] to match the exception against it. *)
Fixpoint reservoir_weights_loop (attempts : nat)
    (locals : option (matrix F) * option (list C))
  : M (option (matrix F) * option (list C)) :=
  match attempts with
  | O => ret locals
  | S attempts' =>
      let handler (locals : option (matrix F) * option (list C)) (e : exn C)
        : M (option (matrix F) * option (list C)) :=
        ArpackNoConvergence ← unbound_name "ArpackNoConvergence";
        if isinstance ArpackNoConvergence e
        then
          emit (Print "WARNING: No convergence! Redo {0} times..."
                  [FInt (Z.of_nat attempts')]);;
          (if Nat.eqb attempts' 0
           then emit (Print "WARNING: Returning possibly invalid eigenvalues..." [])
           else ret tt);;
          match class_eigenvalues ArpackNoConvergence with
          | Some we => reservoir_weights_loop attempts' (locals.1, Some we)
          | None => raise (AttributeError "eigenvalues")
          end
        else raise e in
      λ w,
        match reservoir_weights_draw w with
        | (w1, inl e) => handler locals e w1
        | (w1, inr reservoir_weights_init) =>
            match (eigens ← unbound_name "eigens";
                   call eigens reservoir_weights_init) w1 with
            | (w2, inl e) => handler (Some reservoir_weights_init, locals.2) e w2
            | (w2, inr we) => (w2, inr (Some reservoir_weights_init, Some we))
            end
        end
  end.

(** [np.amax(l)] *)
Definition amax (l : list F) : M F :=
  match l with
  | [] => raise (ValueError "zero-size array to reduction operation maximum which has no identity" [])
  | x :: l' => ret (fold_left fmaximum l' x)
  end.

(** [m *= c] *)
Definition scale_matrix (m : matrix F) (c : F) : matrix F :=
  match m with
  | Dense a => Dense (mk_ndarray (nd_shape a) (map (map (λ x, fmul x c)) (nd_rows a)))
  | Sparse s => Sparse (mk_csc (csc_shape s) (map (λ x, fmul x c) (csc_data s))
                          (csc_row s) (csc_col s))
  end.

(** Line 188: [reservoir_weights_init *= (1. / np.amax(np.absolute(we)))] *)
Definition normalize (reservoir_weights_init : matrix F) (we : list C) : M (matrix F) :=
  largest ← amax (map absolute we);
  ret (scale_matrix reservoir_weights_init (fdiv f1 largest)).

(** Lines 157 to 188: the recurrent weights, from the raw matrix of the
    last attempt. *)
Definition reservoir_weights : M (matrix F) :=
  locals ← reservoir_weights_loop 50 (None, None);
  match locals with
  | (Some reservoir_weights_init, Some we) => normalize reservoir_weights_init we
  | (None, _) => raise (NameError "reservoir_weights_init")
  | (_, None) => raise (NameError "we")
  end.

(** Line 190: the bias weights. *)
Definition bias_weight_matrix (random_state : generator) : M (list F * generator) :=
  n_components_ ← getattr_int "n_components_";
  n ← checked_size n_components_;
  '(values, r) ← draw "rand" (rand n) random_state;
  ret (map times2_minus1 values, r).

(** The three matrices the method builds, in the order it builds them. *)
Definition generated_matrices (self : LayerConfig F) (n_features : Z)
  : M (matrix F * matrix F * list F) :=
  random_state ← check_random_state (random_state self);
  '(feedforward, random_state) ← feedforward_weight_matrix self n_features random_state;
  reservoir_weights_init ← reservoir_weights;
  '(bias, _) ← bias_weight_matrix random_state;
  ret (feedforward, reservoir_weights_init, bias).

(** The method returns the first and the last of them. *)
Definition RecurrentLayer_initialize_weight_matrices (self : LayerConfig F)
    (n_components n_features : Z) : M (matrix F * list F) :=
  '(feedforward, _, bias) ← generated_matrices self n_features;
  ret (feedforward, bias).

(** ** [BaseRecurrentLayer.fit] *)

(** The abstract method [_initialize_weight_matrices]. *)
Class Layer := _initialize_weight_matrices :
  LayerConfig F → Z → Z → M (matrix F * list F).

Definition fit {H2 : Layer} (self : LayerConfig F) (X : list (list F)) : M unit :=
  X ← _validate_data X;
  let n_features := Z.of_nat (nd_shape X).2 in
  _validate_parameters self n_features;;
  setattr "n_components_" (VInt (n_components self));;
  n_components_ ← getattr_int "n_components_";
  '(input_weights_, bias_weights_) ← _initialize_weight_matrices self n_components_ n_features;
  setattr "input_weights_" (VMatrix input_weights_);;
  setattr "bias_weights_" (VVector bias_weights_);;
  input_weights_ ← getattr_matrix "input_weights_";
  n_components_ ← getattr_int "n_components_";
  if (Z.of_nat (matrix_shape input_weights_).1 =? n_components_)
     && (Z.of_nat (matrix_shape input_weights_).2 =? n_features)
  then ret tt
  else raise (AssertionError
                "An error has occurred the self.components_ matrix has not the proper shape.").

#[export] Instance RecurrentLayer : Layer := RecurrentLayer_initialize_weight_matrices.

(** ** What the specification says, in its own words *)

(** Entry [(i, j)] of [X · W^T + b] with [b] broadcast across rows: the
    sum over the features [k] of [X[i][k] * W[j][k]], plus [b[j]]. *)
Definition affine_entry (X : list (list F)) (W : matrix F) (b : list F) (i j : nat) : F :=
  fadd (fold_left (λ acc k, fadd acc (fmul (nth k (nth i X []) f0) (entry W j k)))
          (seq 0 (matrix_shape W).2) f0)
       (nth j b f0).

(** The column positions stored for row [i] of a sparse matrix. *)
Definition row_columns (s : csc_matrix F) (i : nat) : list nat :=
  map (λ e, e.2.2) (filter (λ e, e.2.1 = i) (csc_entries s)).


(** The state of the generator a name refers to, where there is one. *)
Definition current (r : generator) (w : world F G) : option G :=
  match r with
  | NpRandom => Some (np_random w)
  | Fresh g => Some g
  | SelfRandomState =>
      match attrs w !! "_random_state" with
      | Some (VRandomState g) => Some g
      | Some VNpRandom => Some (np_random w)
      | _ => None
      end
  end.

(** The same generator, moved on to state [g]. *)
Definition with_state (r : generator) (g : G) : generator :=
  match r with
  | Fresh _ => Fresh g
  | _ => r
  end.

Definition set_current (r : generator) (w : world F G) (g : G) : world F G :=
  match r with
  | NpRandom => mk_world (attrs w) g (output w)
  | Fresh _ => w
  | SelfRandomState =>
      match attrs w !! "_random_state" with
      | Some VNpRandom => mk_world (attrs w) g (output w)
      | _ => mk_world (<["_random_state" := VRandomState g]> (attrs w)) (np_random w)
               (output w)
      end
  end.

(** The permutations of [range(cols)] that [n] rows draw in turn. *)
Fixpoint row_permutations (cols : nat) (g : G) (n : nat) : list (list nat) * G :=
  match n with
  | O => ([], g)
  | S n' =>
      let '(p, g1) := permutation cols g in
      let '(ps, g2) := row_permutations cols g1 n' in
      (p :: ps, g2)
  end.

(** The world after [self.name = v]. *)
Definition assign (name : string) (v : value F G) (w : world F G) : world F G :=
  mk_world (<[name := v]> (attrs w)) (np_random w) (output w).

(** From [w] to [w'] no attribute other than [_random_state] changed. *)
Definition frame (w w' : world F G) : Prop :=
  ∀ name, name ≠ "_random_state"%string → attrs w' !! name = attrs w !! name.

(** A call that changes no attribute other than [_random_state],
    whether it returns or raises. *)
Definition framed {A} (m : M A) : Prop := ∀ w, frame w (m w).1.

(** A generator created by the call itself. *)
Definition is_fresh (r : generator) : Prop := ∃ g, r = Fresh g.

(** A call that neither reads nor changes the world. *)
Definition constant {A} (P : A → Prop) (m : M A) : Prop :=
  ∃ R, (∀ w, m w = (w, R)) ∧ ∀ a, R = inr a → P a.

(** The parameters that pass every check of [_validate_parameters]. *)
Definition valid_parameters (self : LayerConfig F) (n_features : Z) : Prop :=
  (k_in self = -1 ∨ 1 <= k_in self) ∧ k_in self <= n_features
  ∧ 0 < n_components self
  ∧ (∃ act, ACTIVATIONS !! activation_function self = Some act)
  ∧ (k_rec self = -1 ∨ 1 <= k_rec self) ∧ k_rec self <= n_components self.

(** The seeds [check_random_state] takes: [None] or an integer that
    [RandomState] accepts. *)
Definition valid_seed (seed : option Z) : Prop :=
  match seed with
  | None => True
  | Some s => 0 <= s < 2 ^ 32
  end.

(** A call that leaves the world as it found it, whether it returns or
    raises. *)
Definition leaves_world {A} (m : M A) : Prop := ∀ w, (m w).1 = w.

(** A reference other than the name of numpy's global generator: a
    generator of the call's own, or whatever [self._random_state]
    holds. *)
Definition is_local (r : generator) : Prop := r ≠ NpRandom.

(** The generator in [self._random_state], where there is one, is an
    object of its own and not numpy's global generator. *)
Definition own_generator (w : world F G) : Prop :=
  attrs w !! "_random_state" ≠ Some VNpRandom.

(** A call that, on an instance whose generator is its own, keeps it
    so and leaves numpy's global generator in the state it found it
    in, whether it returns or raises, and whose results satisfy [P]. *)
Definition keeps_np_random {A} (P : A → Prop) (m : M A) : Prop :=
  ∀ w, own_generator w →
       own_generator (m w).1 ∧ np_random (m w).1 = np_random w
       ∧ ∀ a, (m w).2 = inr a → P a.

(** A call that hands nothing to [warnings.warn] or [print], whether
    it returns or raises. *)
Definition silent {A} (m : M A) : Prop := ∀ w, output (m w).1 = output w.



(** The instance looks unfitted to [check_is_fitted]: no attribute ends
    in an underscore. *)
Definition unfitted (w : world F G) : Prop :=
  ∀ name, is_Some (attrs w !! name) → fitted_attribute name = false.

End Model.

(** ** An instance to run the model on

    Rationals for the numbers, a counter for the generator state: [rand]
    cycles through 0, 1/4, 1/2, 3/4, [randn] through -2 .. 2, and
    [permutation] rotates [range(n)]. *)

Definition rotate {A} (k : nat) (l : list A) : list A := skipn k l ++ firstn k l.

Definition q_rand (n g : nat) : list Q * nat :=
  (map (λ i, Qmake (Z.of_nat ((g + i) mod 4)) 4) (seq 0 n), (g + n)%nat).

Definition q_randn (n g : nat) : list Q * nat :=
  (map (λ i, inject_Z (Z.of_nat ((g + i) mod 5) - 2)) (seq 0 n), (g + n)%nat).

Definition q_permutation (n g : nat) : list nat * nat :=
  (rotate (g mod n) (seq 0 n), S g).

#[export] Instance q_numpy : Numpy Q Q nat := {|
  f0 := 0%Q;
  f1 := 1%Q;
  f2 := 2%Q;
  fadd := Qplus;
  fsub := Qminus;
  fmul := Qmult;
  fdiv := Qdiv;
  fmaximum := Qmax;
  absolute := Qabs;
  isfinite := λ _, true;
  fle := Qle;
  flt := Qlt;
  RandomState := Z.to_nat;
  rand := q_rand;
  randn := q_randn;
  permutation := q_permutation
|}.

(** A registry with one activation, the identity, under the name
    [identity]. *)
#[export] Instance q_registry : Registry Q :=
  ({[ "identity"%string := (λ x : Q, x) ]} : gmap string (Q → Q)).

(** Inputs the examples run on: a layer as the constructor leaves it,
    and one on which [k_res], [reservoir_size] and [_random_state] have
    been assigned. *)
Definition layer (k : Z) (rho : Q) (seed : option Z) : LayerConfig Q :=
  mk_config 3 true 1%Q k 0%Q "identity" rho 1 false seed.

Definition constructed : world Q nat := mk_world ∅ 0%nat [].

Definition with_reservoir (size : Z) (g : nat) : world Q nat :=
  mk_world (<["k_res" := VInt 1]> (<["reservoir_size" := VInt size]>
             (<["_random_state" := VRandomState g]> ∅))) 0%nat [].

Definition example_X : list (list Q) := [[1; 2]; [3; 4]]%Q.

(** The world in which [fit] on two features calls
    [_initialize_weight_matrices], when validation emits no warning. *)
Definition at_generation (w : world Q nat) : world Q nat :=
  assign "n_components_" (VInt 3) (assign "n_features_in_" (VInt 2) w).

(** What the example generator yields from [self._random_state] in
    state 5 for a reservoir of size 2 and fan-in 1, and that matrix
    times 1/2. *)
Definition raw_5 : matrix Q :=
  Sparse (mk_csc (2%nat, 2%nat) [-2; -1]%Q [0; 1]%nat [1; 0]%nat).



(** The world after the recurrent weights were drawn, with
    [self._random_state] in state [g]. *)
Definition drawn (size : Z) (g : nat) : world Q nat :=
  assign "_random_state" (VRandomState g) (at_generation (with_reservoir size 5)).




(** A fitted instance written out. *)
Definition fitted_example : world Q nat :=
  assign "bias_weights_" (VVector [0; 1]%Q)
    (assign "input_weights_" (VMatrix (Dense (mk_ndarray (2%nat, 2%nat) [[1; 2]; [3; 4]]%Q)))
       constructed).

(** * Properties *)

Section Properties.
Context {F C G : Type} `{NumpyLaws F C G} `{Registry F}.

(** ** Running a call *)

Lemma bind_unfold {A B} (m : @M F C G A) (k : A → @M F C G B) w :
  (m ≫= k) w = match m w with
               | (w', inl e) => (w', inl e)
               | (w', inr a) => k a w'
               end.
Proof. reflexivity. Qed.

Lemma bind_inr {A B} (m : @M F C G A) (k : A → @M F C G B) w w' a :
  m w = (w', inr a) → (m ≫= k) w = k a w'.
Proof. intros Hm. rewrite bind_unfold, Hm. reflexivity. Qed.

Lemma bind_inl {A B} (m : @M F C G A) (k : A → @M F C G B) w w' e :
  m w = (w', inl e) → (m ≫= k) w = (w', inl e).
Proof. intros Hm. rewrite bind_unfold, Hm. reflexivity. Qed.


(** ** Parameter validation *)

Ltac zbool :=
  repeat match goal with
         | |- context [?a <? ?b] => destruct (Z.ltb_spec a b)
         | |- context [?a <=? ?b] => destruct (Z.leb_spec a b)
         | |- context [?a =? ?b] => destruct (Z.eqb_spec a b)
         end.

(** C9. [_validate_parameters] raises exactly when [k_in] is neither -1
    nor at least 1, or [k_in] exceeds [n_features], or [n_components] is
    not positive, or the activation is not in the registry, or [k_rec]
    is neither -1 nor in [1, n_components]; what it raises is always a
    [ValueError]; and when it returns with [n_components <= n_features]
    it has emitted one warning. *)
Theorem validate_parameters_raises_iff (self : LayerConfig F) (n_features : Z) (w : world F G) :
  ((∃ e : exn C, (_validate_parameters self n_features w).2 = inl e) ↔
     (k_in self ≠ -1 ∧ k_in self < 1) ∨ k_in self > n_features ∨ n_components self <= 0
     ∨ ACTIVATIONS !! activation_function self = None
     ∨ (k_rec self ≠ -1 ∧ (k_rec self < 1 ∨ k_rec self > n_components self)))
  ∧ (∀ e : exn C, (_validate_parameters self n_features w).2 = inl e →
     ∃ msg args, e = ValueError msg args)
  ∧ ((_validate_parameters (C:=C) self n_features w).2 = inr tt →
     attrs (_validate_parameters (C:=C) self n_features w).1 = attrs w
     ∧ (n_components self <= n_features →
        ∃ msg args,
          output (_validate_parameters (C:=C) self n_features w).1 = output w ++ [Warn msg args])
     ∧ (n_components self > n_features →
        output (_validate_parameters (C:=C) self n_features w).1 = output w)).
Proof.
  unfold _validate_parameters, mbind, M_bind, bind, ret, raise, emit.
  destruct (ACTIVATIONS !! activation_function self) as [act|] eqn:Hact.
  - zbool; cbn; rewrite ?Hact; cbn; zbool; cbn.
    all: split; [split|split].
    all: try (intros [x Hx]; first [discriminate Hx | lia]).
    all: try (intros x Hx; first [discriminate Hx | injection Hx as <-; eauto]).
    all: try (intros Hr; first [discriminate Hr
                               | split; [reflexivity|split; intros; first [lia|eauto]]]).
    all: try (intros _; eexists; reflexivity).
    all: try (intros Hc; exfalso; destruct Hc as [?|[?|[?|[?|?]]]]; first [discriminate|lia]).
  - zbool; cbn; rewrite ?Hact; cbn.
    all: split; [split|split].
    all: try (intros _; first [eexists; reflexivity | solve [auto 6]]).
    all: try (intros x Hx; injection Hx as <-; eauto).
    all: intros Hr; discriminate Hr.
Qed.

(** ** The validation helpers *)

Lemma check_array_world (X : list (list F)) (w : world F G) :
  (check_array (C:=C) X w).1 = w.
Proof.
  unfold check_array. destruct X as [|r X]; [reflexivity|].
  repeat match goal with |- context [if ?b then _ else _] => destruct b end; reflexivity.
Qed.

Lemma check_array_success (X : list (list F)) (w : world F G) (a : ndarray F) :
  (check_array (C:=C) X w).2 = inr a →
  ∃ m, a = mk_ndarray (length X, m) X ∧ Forall (λ r, length r = m) X
       ∧ (0 < m)%nat ∧ (0 < length X)%nat.
Proof.
  unfold check_array. destruct X as [|r X]; [discriminate|].
  destruct (forallb _ (r :: X)) eqn:Hrect; cbn [negb]; [|discriminate].
  destruct (forallb (forallb isfinite) (r :: X)); cbn [negb]; [|discriminate].
  destruct (Nat.eqb_spec (length r) 0); [discriminate|].
  intros [= <-]. exists (length r). repeat split; [|lia|cbn; lia].
  rewrite forallb_forall in Hrect. rewrite Forall_forall. intros x Hx.
  apply list_elem_of_In in Hx. apply Nat.eqb_eq, Hrect, Hx.
Qed.

Lemma check_is_fitted_unfitted (w : world F G) :
  unfitted w → check_is_fitted (C:=C) w = (w, inl NotFittedError).
Proof.
  intros Hw. unfold check_is_fitted.
  destruct (existsb fitted_attribute (map fst (map_to_list (attrs w)))) eqn:Hex; [|reflexivity].
  apply existsb_exists in Hex as (name & Hin & Hname).
  apply in_map_iff in Hin as ([name' v] & <- & Hin).
  apply list_elem_of_In, elem_of_map_to_list in Hin. cbn in Hname.
  rewrite (Hw name') in Hname; [discriminate|]. exists v. exact Hin.
Qed.

Lemma check_is_fitted_attribute (w : world F G) (name : string) (v : value F G) :
  attrs w !! name = Some v → fitted_attribute name = true →
  check_is_fitted (C:=C) w = (w, inr tt).
Proof.
  intros Hv Hname. unfold check_is_fitted.
  destruct (existsb fitted_attribute (map fst (map_to_list (attrs w)))) eqn:Hex; [reflexivity|].
  assert (existsb fitted_attribute (map fst (map_to_list (attrs w))) = true) as Htrue;
    [|congruence].
  apply existsb_exists. exists name. split; [|exact Hname].
  apply in_map_iff. exists (name, v). split; [reflexivity|].
  apply list_elem_of_In, elem_of_map_to_list. exact Hv.
Qed.

(** C10, as the code has it. [transform] checks its input first: when
    [check_array] rejects the input, [transform] raises what
    [check_array] raised, whatever the instance holds. On an input that
    is accepted it raises [NotFittedError] when the instance has no
    attribute ending in an underscore, and [AttributeError] for
    [input_weights_] when it has such an attribute but no
    [input_weights_], which is how a [fit] that raised after its input
    check leaves a new instance. The world is left as it was. *)
Theorem transform_unfitted (self : LayerConfig F) (X : list (list F)) (w : world F G) :
  (∀ e, (check_array (C:=C) X w).2 = inl e → transform self X w = (w, inl e))
  ∧ (∀ a, (check_array (C:=C) X w).2 = inr a → unfitted w →
          transform self X w = (w, inl NotFittedError))
  ∧ (∀ a name v, (check_array (C:=C) X w).2 = inr a →
                 attrs w !! name = Some v → fitted_attribute name = true →
                 attrs w !! "input_weights_" = None →
                 transform self X w = (w, inl (AttributeError "input_weights_"))).
Proof.
  unfold transform.
  pose proof (check_array_world X w) as Hw1.
  destruct (check_array X w) as [w1 r] eqn:Hc. cbn in Hw1. subst w1. cbn [snd].
  split; [|split].
  - intros e ->. apply bind_inl, Hc.
  - intros a -> Hw. rewrite (bind_inr _ _ _ _ _ Hc).
    apply bind_inl, check_is_fitted_unfitted, Hw.
  - intros a name v -> Hv Hname Hnone. rewrite (bind_inr _ _ _ _ _ Hc).
    rewrite (bind_inr _ _ _ _ _ (check_is_fitted_attribute w _ _ Hv Hname)).
    apply bind_inl. unfold getattr_matrix. apply bind_inl.
    unfold getattr. rewrite Hnone. reflexivity.
Qed.

(** ** The projection *)

Lemma lookup_map {A B} (f : A → B) (l : list A) (i : nat) :
  map f l !! i = f <$> (l !! i).
Proof. apply list_lookup_fmap. Qed.

Lemma fold_left_ext_in {A B} (f g : A → B → A) (l : list B) (acc : A) :
  (∀ x a, In x l → f a x = g a x) → fold_left f l acc = fold_left g l acc.
Proof.
  revert acc. induction l as [|x l IH]; intros acc Hfg; [reflexivity|].
  cbn. rewrite (Hfg x acc) by (left; reflexivity).
  apply IH. intros y a Hy. apply Hfg. right. exact Hy.
Qed.

Lemma entry_transpose_sparse (data : list F) (row col : list nat) (k j : nat) (acc : F) :
  fold_left (λ acc e, if Nat.eqb e.2.1 k && Nat.eqb e.2.2 j then fadd acc e.1 else acc)
    (zip data (zip col row)) acc
  = fold_left (λ acc e, if Nat.eqb e.2.1 j && Nat.eqb e.2.2 k then fadd acc e.1 else acc)
      (zip data (zip row col)) acc.
Proof.
  revert row col acc. induction data as [|d data IH]; intros row col acc; [reflexivity|].
  destruct row as [|r row], col as [|c col]; try reflexivity.
  cbn. rewrite (andb_comm (Nat.eqb c k)). apply IH.
Qed.

(** Reading [W.T] at [(k, j)] is reading [W] at [(j, k)]. *)
Lemma entry_transpose (W : matrix F) (k j : nat) :
  (k < (matrix_shape W).2)%nat → entry (transpose W) k j = entry W j k.
Proof.
  destruct W as [a|s]; cbn [matrix_shape transpose entry nd_rows nd_shape].
  - intros Hk. rewrite (nth_lookup _ k), lookup_map.
    rewrite lookup_seq_lt by exact Hk. cbn.
    rewrite (nth_lookup _ j), lookup_map, (nth_lookup _ j).
    destruct (nd_rows a !! j) as [r|]; cbn; [reflexivity|].
    destruct k; reflexivity.
  - intros _. apply entry_transpose_sparse.
Qed.

Lemma matrix_shape_transpose (W : matrix F) :
  matrix_shape (transpose W) = ((matrix_shape W).2, (matrix_shape W).1).
Proof. destruct W; reflexivity. Qed.

(** C1. On a fitted layer whose feedforward weights [W] have shape
    [n_components, n_features] and whose bias [b] has [n_components]
    entries, and on an input with [n_features] columns, [transform]
    returns an array of shape [rows(X), n_components], every row of that
    length, whose entry [(i, j)] is the activation of entry [(i, j)] of
    [X · W^T + b]; the world is left as it was. *)
Theorem transform_affine (self : LayerConfig F) (X : list (list F)) (w : world F G)
    (W : matrix F) (b : list F) (act : F → F) (n_comp n_feat : nat) (a : ndarray F) :
  attrs w !! "input_weights_" = Some (VMatrix W) →
  attrs w !! "bias_weights_" = Some (VVector b) →
  matrix_shape W = (n_comp, n_feat) →
  length b = n_comp →
  ACTIVATIONS !! activation_function self = Some act →
  (check_array (C:=C) X w).2 = inr a →
  (nd_shape a).2 = n_feat →
  ∃ Y, transform self X w = (w, inr Y)
       ∧ nd_shape Y = (length X, n_comp)
       ∧ length (nd_rows Y) = length X
       ∧ Forall (λ r, length r = n_comp) (nd_rows Y)
       ∧ ∀ i j, (i < length X)%nat → (j < n_comp)%nat →
           nth j (nth i (nd_rows Y) []) f0 = act (affine_entry X W b i j).
Proof.
  intros HW Hb Hshape Hlen Hact Hx Hcols. unfold transform.
  pose proof (check_array_world X w) as Hw1.
  destruct (check_array X w) as [w1 r] eqn:Hc. cbn in Hx, Hw1. subst w1 r.
  apply (f_equal snd) in Hc as Hc2. cbn in Hc2.
  apply check_array_success in Hc2 as (m & -> & Hrows & Hm & HX).
  cbn in Hcols. subst m.
  rewrite (bind_inr _ _ _ _ _ Hc).
  rewrite (bind_inr _ _ _ _ _ (check_is_fitted_attribute w _ _ HW eq_refl)).
  unfold getattr_matrix, getattr_vector, getattr, safe_sparse_dot, add_broadcast.
  unfold mbind, M_bind, bind, ret. rewrite HW. cbn [nd_shape snd fst].
  rewrite matrix_shape_transpose, Hshape. cbn [snd fst].
  rewrite Nat.eqb_refl. cbn [negb]. rewrite Hb.
  cbn [nd_shape snd fst]. rewrite Hlen, Nat.eqb_refl, Hact.
  eexists. split; [reflexivity|]. cbn [apply_activation nd_shape nd_rows].
  split; [reflexivity|]. split; [rewrite !length_map; reflexivity|].
  split.
  - rewrite Forall_forall. intros r Hr.
    apply list_elem_of_In in Hr.
    apply in_map_iff in Hr as (r1 & <- & Hr).
    apply in_map_iff in Hr as (r2 & <- & Hr).
    apply in_map_iff in Hr as (r3 & <- & Hr).
    rewrite !length_map, length_zip_with, length_map, length_seq. lia.
  - intros i j Hi Hj.
    destruct (lookup_lt_is_Some_2 X i Hi) as [x Hxi].
    assert (length x = n_feat) as Hxlen.
    { rewrite Forall_forall in Hrows. apply Hrows. eapply list_elem_of_lookup_2, Hxi. }
    rewrite (nth_lookup _ i).
    rewrite !lookup_map, Hxi. cbn.
    rewrite nth_lookup, !lookup_map.
    rewrite lookup_zip_with, lookup_map, lookup_seq_lt by exact Hj. cbn.
    destruct (lookup_lt_is_Some_2 b j ltac:(lia)) as [bj Hbj]. rewrite Hbj. cbn.
    f_equal. unfold affine_entry, dot. rewrite Hshape. cbn [snd].
    rewrite (nth_lookup b), Hbj. cbn. f_equal.
    rewrite (nth_lookup X), Hxi, Hxlen. cbn.
    apply fold_left_ext_in. intros k acc Hk. apply in_seq in Hk.
    rewrite entry_transpose by (rewrite Hshape; cbn; lia). reflexivity.
Qed.

(** ** Drawing from a generator *)

Lemma set_current_same (r : generator) (w : world F G) (g : G) :
  current r w = Some g → set_current r w g = w.
Proof.
  destruct r as [|g0|]; cbn; destruct w as [at_ np out]; cbn.
  - intros [= ->]. reflexivity.
  - reflexivity.
  - destruct (at_ !! "_random_state") as [[| | |g1|]|] eqn:Hrs; try discriminate.
    + intros [= ->]. rewrite insert_id by exact Hrs. reflexivity.
    + intros [= ->]. reflexivity.
Qed.

Lemma current_set_current (r : generator) (w : world F G) (g : G) :
  current (with_state r g) (set_current r w g) = Some g.
Proof.
  destruct r; cbn; [reflexivity..|].
  destruct (attrs w !! "_random_state") as [[| | |g1|]|] eqn:Hrs; cbn;
    rewrite ?lookup_insert_eq, ?Hrs; reflexivity.
Qed.

Lemma set_current_twice (r : generator) (w : world F G) (g1 g2 : G) :
  set_current (with_state r g1) (set_current r w g1) g2 = set_current r w g2.
Proof.
  destruct r; cbn; [reflexivity..|].
  destruct (attrs w !! "_random_state") as [[| | |g|]|] eqn:Hrs; cbn;
    rewrite ?lookup_insert_eq, ?Hrs, ?insert_insert_eq; reflexivity.
Qed.

Lemma with_state_twice (r : generator) (g1 g2 : G) :
  with_state (with_state r g1) g2 = with_state r g2.
Proof. destruct r; reflexivity. Qed.

Lemma draw_current {A} (method : string) (f : G → A * G) (r : generator)
    (w : world F G) (g : G) :
  current r w = Some g →
  draw (C:=C) method f r w = (set_current r w (f g).2, inr ((f g).1, with_state r (f g).2)).
Proof.
  destruct r as [|g0|]; cbn.
  - intros [= <-]. destruct (f (np_random w)); reflexivity.
  - intros [= <-]. destruct (f g0); reflexivity.
  - unfold mbind, M_bind, bind, getattr.
    destruct (attrs w !! "_random_state") as [[| | |g1|]|]; try discriminate.
    + intros [= <-]. destruct (f g1); reflexivity.
    + intros [= <-]. destruct (f (np_random w)); reflexivity.
Qed.

(** ** Slices *)

Lemma slice_bounds_inside (len : nat) (i n : nat) :
  (i + n ≤ len)%nat → slice_bounds len (Z.of_nat i) (Z.of_nat i + Z.of_nat n) = (i, n).
Proof.
  intros Hin. unfold slice_bounds, slice_index.
  destruct (Z.ltb_spec (Z.of_nat i) 0); [lia|].
  destruct (Z.ltb_spec (Z.of_nat i + Z.of_nat n) 0); [lia|].
  f_equal; lia.
Qed.

Lemma slice_take_firstn {A} (l : list A) (n : nat) :
  (n ≤ length l)%nat → slice_take l (Z.of_nat n) = firstn n l.
Proof.
  intros Hn. unfold slice_take, slice_bounds, slice_index. cbn [snd].
  destruct (Z.ltb_spec (Z.of_nat n) 0); [lia|].
  f_equal. cbn. lia.
Qed.

Lemma replace_slice_app {A} (done todo vs : list A) (n : nat) :
  replace_slice (done ++ todo) (length done) n vs = (done ++ vs) ++ skipn n todo.
Proof.
  unfold replace_slice.
  rewrite firstn_app, firstn_all, Nat.sub_diag, firstn_0, app_nil_r.
  rewrite skipn_app, (skipn_all2 done) by lia.
  replace (length done + n - length done)%nat with n by lia.
  rewrite <- app_assoc. reflexivity.
Qed.

Lemma permutation_length (n : nat) (g : G) : length (permutation n g).1 = n.
Proof.
  rewrite (Permutation_length (permutation_Permutation n g)). apply length_seq.
Qed.

(** One row: the next [k] positions of [ij[0]] receive the row number,
    those of [ij[1]] the first [k] entries of a fresh permutation. *)
Lemma connect_row_step (cn kn en : nat) (done0 todo0 done1 todo1 : list nat)
    (r : generator) (w : world F G) (g : G) :
  current r w = Some g →
  (kn ≤ cn)%nat → length done1 = length done0 →
  (kn ≤ length todo0)%nat → (kn ≤ length todo1)%nat →
  connect_row (C:=C) (Z.of_nat cn) (Z.of_nat kn)
    (done0 ++ todo0, done1 ++ todo1, Z.of_nat (length done0), r) en w
  = (set_current r w (permutation cn g).2,
     inr ((done0 ++ repeat en kn) ++ skipn kn todo0,
          (done1 ++ firstn kn (permutation cn g).1) ++ skipn kn todo1,
          Z.of_nat (length done0) + Z.of_nat kn,
          with_state r (permutation cn g).2)).
Proof.
  intros Hg Hk Hd Ht0 Ht1. unfold connect_row.
  rewrite Nat2Z.id.
  rewrite (bind_inr _ _ _ _ _ (draw_current "permutation" (permutation cn) r w g Hg)).
  rewrite slice_take_firstn by (rewrite permutation_length; exact Hk).
  unfold slice_assign_scalar, slice_assign_array.
  rewrite !slice_bounds_inside by (rewrite length_app; lia).
  rewrite length_firstn, permutation_length, Nat.min_l, Nat.eqb_refl by exact Hk.
  unfold mbind, M_bind, bind, ret. cbn.
  rewrite replace_slice_app. rewrite <- Hd, replace_slice_app. reflexivity.
Qed.

Lemma with_state_same (r : generator) (w : world F G) (g : G) :
  current r w = Some g → with_state r g = r.
Proof. destruct r; cbn; [reflexivity| |reflexivity]. intros [= ->]. reflexivity. Qed.

(** The whole loop: [ij[0]] holds every row number [k] times, [ij[1]]
    the first [k] entries of the permutations drawn in turn. *)
Lemma for_range_connect_row (cn kn : nat) (ens : list nat) :
  ∀ (done0 todo0 done1 todo1 : list nat) (r : generator) (w : world F G) (g : G),
    current r w = Some g →
    (kn ≤ cn)%nat → length done1 = length done0 →
    length todo0 = (kn * length ens)%nat → length todo1 = (kn * length ens)%nat →
    for_range (connect_row (C:=C) (Z.of_nat cn) (Z.of_nat kn)) ens
      (done0 ++ todo0, done1 ++ todo1, Z.of_nat (length done0), r) w
    = (set_current r w (row_permutations cn g (length ens)).2,
       inr (done0 ++ concat (map (λ en, repeat en kn) ens),
            done1 ++ concat (map (firstn kn) (row_permutations cn g (length ens)).1),
            Z.of_nat (length done0 + kn * length ens),
            with_state r (row_permutations cn g (length ens)).2)).
Proof.
  induction ens as [|en ens IH]; intros done0 todo0 done1 todo1 r w g Hg Hk Hd Ht0 Ht1.
  - cbn in *. rewrite (set_current_same _ _ _ Hg), (with_state_same _ _ _ Hg).
    destruct todo0, todo1; try (cbn in *; lia).
    rewrite Nat.mul_0_r, Nat.add_0_r. reflexivity.
  - cbn [for_range length row_permutations].
    rewrite (bind_inr _ _ _ _ _
               (connect_row_step cn kn en done0 todo0 done1 todo1 r w g Hg Hk Hd
                  ltac:(cbn in Ht0; lia) ltac:(cbn in Ht1; lia))).
    replace (Z.of_nat (length done0) + Z.of_nat kn)
      with (Z.of_nat (length (done0 ++ repeat en kn)))
      by (rewrite length_app, repeat_length; lia).
    destruct (permutation cn g) as [p g1] eqn:Hp.
    pose proof (permutation_length cn g) as Hlen. rewrite Hp in Hlen. cbn [fst snd] in *.
    rewrite (IH _ _ _ _ _ _ g1 (current_set_current r w g1)); try lia.
    + destruct (row_permutations cn g1 (length ens)) as [ps g2]. cbn [fst snd map concat].
      rewrite set_current_twice, with_state_twice, <- !app_assoc.
      rewrite length_app, repeat_length.
      do 4 f_equal. lia.
    + rewrite !length_app, repeat_length, length_firstn. lia.
    + rewrite length_skipn. cbn in Ht0. lia.
    + rewrite length_skipn. cbn in Ht1. lia.
Qed.

Lemma row_permutations_length (cn : nat) (n : nat) (g : G) :
  length (row_permutations cn g n).1 = n.
Proof.
  revert g. induction n as [|n IH]; intros g; [reflexivity|].
  cbn. destruct (permutation cn g) as [p g1].
  specialize (IH g1). destruct (row_permutations cn g1 n). cbn in *. lia.
Qed.

Lemma row_permutations_drawn (cn : nat) (n : nat) (g : G) :
  Forall (λ p, ∃ g', p = (permutation cn g').1) (row_permutations cn g n).1.
Proof.
  revert g. induction n as [|n IH]; intros g; [constructor|].
  cbn. destruct (permutation cn g) as [p g1] eqn:Hp.
  specialize (IH g1). destruct (row_permutations cn g1 n). cbn in *.
  constructor; [|exact IH]. exists g. rewrite Hp. reflexivity.
Qed.

Lemma concat_repeat_length (kn : nat) (ens : list nat) :
  length (concat (map (λ en, repeat en kn) ens)) = (kn * length ens)%nat.
Proof.
  induction ens as [|en ens IH]; cbn; [lia|].
  rewrite length_app, repeat_length, IH. lia.
Qed.

Lemma concat_firstn_length (cn kn : nat) (ps : list (list nat)) :
  (kn ≤ cn)%nat → Forall (λ p, length p = cn) ps →
  length (concat (map (firstn kn) ps)) = (kn * length ps)%nat.
Proof.
  intros Hk Hps. induction Hps as [|p ps Hp _ IH]; cbn; [lia|].
  rewrite length_app, length_firstn, IH. lia.
Qed.

Lemma existsb_false {A} (f : A → bool) (l : list A) :
  (∀ x, In x l → f x = false) → existsb f l = false.
Proof.
  intros Hf. destruct (existsb f l) eqn:Hex; [|reflexivity].
  apply existsb_exists in Hex as (x & Hx & Hfx). rewrite (Hf x Hx) in Hfx. discriminate.
Qed.

Lemma firstn_incl {A} (n : nat) (l : list A) (x : A) : In x (firstn n l) → In x l.
Proof.
  revert l. induction n as [|n IH]; intros [|y l]; cbn; try tauto.
  intros [->|Hx]; [left; reflexivity|right; apply IH, Hx].
Qed.

Lemma row_permutations_lengths (cn : nat) (n : nat) (g : G) :
  Forall (λ p, length p = cn) (row_permutations cn g n).1.
Proof.
  eapply Forall_impl; [apply row_permutations_drawn|].
  intros p [g' ->]. apply permutation_length.
Qed.

(** The sparse branch on sizes that fit: [rows * k] values, row [en] at
    positions [en * k .. en * k + k - 1], its columns from the
    permutation drawn for it. *)
Lemma sparse_weights_run (sample : nat → G → list F * G) (method : string) (scale : F → F)
    (rn cn kn : nat) (r : generator) (w : world F G) (g : G) :
  current r w = Some g →
  (kn ≤ cn)%nat → Z.of_nat rn * Z.of_nat kn < 2 ^ 31 →
  (∀ n g, length (sample n g).1 = n) →
  sparse_weights (C:=C) sample method scale (Z.of_nat rn) (Z.of_nat cn) (Z.of_nat kn) r w
  = (set_current r w (row_permutations cn (sample (rn * kn)%nat g).2 rn).2,
     inr (Sparse (mk_csc (rn, cn) (map scale (sample (rn * kn)%nat g).1)
                    (concat (map (λ en, repeat en kn) (seq 0 rn)))
                    (concat (map (firstn kn)
                               (row_permutations cn (sample (rn * kn)%nat g).2 rn).1))),
          with_state r (row_permutations cn (sample (rn * kn)%nat g).2 rn).2)).
Proof.
  intros Hg Hk Hfit Hsample. unfold sparse_weights, np_int32, checked_size.
  destruct (Z.ltb_spec (Z.of_nat rn * Z.of_nat kn) (- 2 ^ 31)); [lia|].
  destruct (Z.leb_spec (2 ^ 31) (Z.of_nat rn * Z.of_nat kn)); [lia|].
  cbn [orb].
  unfold mbind at 1 2, M_bind at 1 2, bind at 1 2, ret at 1 2.
  destruct (Z.ltb_spec (Z.of_nat rn * Z.of_nat kn) 0); [lia|].
  replace (Z.to_nat (Z.of_nat rn * Z.of_nat kn)) with (rn * kn)%nat by lia.
  rewrite (bind_inr _ _ _ _ _ (draw_current method (sample (rn * kn)%nat) r w g Hg)).
  rewrite Nat2Z.id.
  set (g1 := (sample (rn * kn)%nat g).2).
  pose proof (for_range_connect_row cn kn (seq 0 rn) [] (repeat 0%nat (rn * kn)) []
                (repeat 0%nat (rn * kn)) (with_state r g1) (set_current r w g1) g1
                (current_set_current r w g1) Hk eq_refl) as Hloop.
  rewrite length_seq, !repeat_length in Hloop.
  specialize (Hloop ltac:(lia) ltac:(lia)). cbn [app length] in Hloop.
  rewrite (bind_inr _ _ _ _ _ Hloop).
  rewrite set_current_twice, with_state_twice.
  unfold csc_matrix_from. cbn [fst snd].
  destruct (Z.ltb_spec (Z.of_nat rn) 0); [lia|].
  destruct (Z.ltb_spec (Z.of_nat cn) 0); [lia|]. cbn [orb].
  rewrite concat_repeat_length, length_seq, length_map, Hsample.
  rewrite (concat_firstn_length cn) by (exact Hk || apply row_permutations_lengths).
  rewrite row_permutations_length.
  rewrite (Nat.mul_comm kn rn), Nat.eqb_refl. cbn [andb negb].
  rewrite !existsb_false.
  - unfold mbind, M_bind, bind, ret. rewrite !Nat2Z.id. reflexivity.
  - intros c Hc. apply in_concat in Hc as (blk & Hblk & Hc).
    apply in_map_iff in Hblk as (p & <- & Hp).
    pose proof (row_permutations_drawn cn rn g1) as Hdrawn.
    rewrite Forall_forall in Hdrawn. apply list_elem_of_In, Hdrawn in Hp as [g' ->].
    apply firstn_incl in Hc.
    apply (Permutation_in _ (permutation_Permutation cn g')), in_seq in Hc.
    apply Z.leb_gt. lia.
  - intros x Hx. apply in_concat in Hx as (blk & Hblk & Hx).
    apply in_map_iff in Hblk as (en & <- & Hen).
    apply repeat_spec in Hx as ->. apply in_seq in Hen.
    apply Z.leb_gt. lia.
Qed.

(** ** Rows of a sparse matrix *)

Lemma filter_row_none (data : list F) (rows cols : list nat) (en : nat) :
  ¬ In en rows →
  filter (λ e : F * (nat * nat), e.2.1 = en) (zip data (zip rows cols)) = [].
Proof.
  revert rows cols. induction data as [|d data IH]; intros rows cols Hen; [reflexivity|].
  destruct rows as [|r rows], cols as [|c cols]; try reflexivity.
  cbn [zip_with]. rewrite filter_cons. cbn [fst snd].
  destruct (decide (r = en)) as [->|_]; [exfalso; apply Hen; left; reflexivity|].
  apply IH. intros Hin. apply Hen. right. exact Hin.
Qed.

Lemma filter_row_all (data : list F) (cols : list nat) (en n : nat) :
  length data = n → length cols = n →
  map (λ e : F * (nat * nat), e.2.2)
    (filter (λ e : F * (nat * nat), e.2.1 = en) (zip data (zip (repeat en n) cols))) = cols.
Proof.
  revert data cols. induction n as [|n IH]; intros [|d data] [|c cols] Hd Hc;
    try discriminate; [reflexivity|].
  cbn [repeat zip_with]. rewrite filter_cons. cbn [fst snd].
  destruct (decide (en = en)) as [_|Hne]; [|congruence].
  cbn [map snd]. f_equal. apply IH; [injection Hd|injection Hc]; auto.
Qed.

Lemma in_concat_repeat (kn : nat) (ens : list nat) (x : nat) :
  In x (concat (map (λ en, repeat en kn) ens)) → In x ens.
Proof.
  intros Hx. apply in_concat in Hx as (blk & Hblk & Hx).
  apply in_map_iff in Hblk as (en & <- & Hen).
  apply repeat_spec in Hx as ->. exact Hen.
Qed.

(** When the rows come [kn] at a time, the entries of row [en] are the
    block written for it. *)
Lemma row_columns_blocks (kn : nat) (ens : list nat) :
  ∀ (blocks : list (list nat)) (data : list F) (i en : nat),
    NoDup ens → Forall (λ b, length b = kn) blocks → length blocks = length ens →
    length data = (kn * length ens)%nat → ens !! i = Some en →
    map (λ e : F * (nat * nat), e.2.2)
      (filter (λ e : F * (nat * nat), e.2.1 = en)
         (zip data (zip (concat (map (λ e, repeat e kn) ens)) (concat blocks))))
    = default [] (blocks !! i).
Proof.
  induction ens as [|e0 ens IH]; intros blocks data i en Hnd Hblocks Hlen Hdata Hi;
    [discriminate|].
  destruct blocks as [|b0 blocks]; [discriminate|].
  apply Forall_cons in Hblocks as [Hb0 Hblocks].
  apply NoDup_cons in Hnd as [He0 Hnd].
  cbn [map concat length] in *.
  rewrite <- (firstn_skipn kn data).
  rewrite (zip_with_app pair (repeat e0 kn)) by (rewrite repeat_length; lia).
  rewrite zip_with_app
    by (rewrite length_zip_with, repeat_length, length_firstn; lia).
  rewrite filter_app, map_app.
  destruct i as [|i]; cbn [lookup list_lookup] in Hi |- *.
  - injection Hi as ->. cbn [default].
    rewrite filter_row_all by (rewrite ?length_firstn; lia).
    rewrite filter_row_none, app_nil_r; [reflexivity|].
    intros Hin. apply in_concat_repeat in Hin. apply He0, list_elem_of_In, Hin.
  - assert (e0 ≠ en) as Hne.
    { intros ->. apply He0. eapply list_elem_of_lookup_2, Hi. }
    rewrite (filter_row_none (firstn kn data)); cbn [map app].
    + apply IH; auto; try lia. rewrite length_skipn. lia.
    + intros Hin. apply repeat_spec in Hin. congruence.
Qed.

(** ** The dense branch *)




Lemma dense_weights_run (sample : nat → G → list F * G) (method : string) (scale : F → F)
    (rn cn : nat) (r : generator) (w : world F G) (g : G) :
  current r w = Some g →
  dense_weights (C:=C) sample method scale (Z.of_nat rn) (Z.of_nat cn) r w
  = (set_current r w (sample (rn * cn)%nat g).2,
     inr (Dense (mk_ndarray (rn, cn) (reshape rn cn (map scale (sample (rn * cn)%nat g).1))),
          with_state r (sample (rn * cn)%nat g).2)).
Proof.
  intros Hg. unfold dense_weights, checked_size.
  destruct (Z.ltb_spec (Z.of_nat rn) 0); [lia|].
  destruct (Z.ltb_spec (Z.of_nat cn) 0); [lia|].
  unfold mbind at 1 2, M_bind at 1 2, bind at 1 2, ret at 1 2. rewrite !Nat2Z.id.
  rewrite (bind_inr _ _ _ _ _ (draw_current method (sample (rn * cn)%nat) r w g Hg)).
  reflexivity.
Qed.


Lemma getattr_int_value (name : string) (z : Z) (w : world F G) :
  attrs w !! name = Some (VInt z) → getattr_int (C:=C) name w = (w, inr z).
Proof.
  intros Hz. unfold getattr_int, getattr, mbind, M_bind, bind. rewrite Hz. reflexivity.
Qed.


(** ** What weight generation leaves alone *)

Lemma frame_refl (w : world F G) : frame w w.
Proof. intros name _. reflexivity. Qed.

Lemma frame_trans (w1 w2 w3 : world F G) : frame w1 w2 → frame w2 w3 → frame w1 w3.
Proof. intros H12 H23 name Hname. rewrite (H23 name Hname). apply H12, Hname. Qed.

Lemma framed_ret {A} (a : A) : framed (mret a : @M F C G A).
Proof. intros w. apply frame_refl. Qed.

Lemma framed_raise {A} (e : exn C) : framed (raise e : @M F C G A).
Proof. intros w. apply frame_refl. Qed.

Lemma framed_bind {A B} (m : @M F C G A) (k : A → @M F C G B) :
  framed m → (∀ a, framed (k a)) → framed (m ≫= k).
Proof.
  intros Hm Hk w. rewrite bind_unfold. specialize (Hm w).
  destruct (m w) as [w1 [e|a]]; cbn in *; [exact Hm|].
  eapply frame_trans; [exact Hm|apply Hk].
Qed.

Lemma framed_emit (e : event) : framed (emit (C:=C) e : @M F C G unit).
Proof. intros w name _. reflexivity. Qed.

Lemma framed_getattr (name : string) : framed (getattr (C:=C) name : @M F C G _).
Proof. intros w. unfold getattr. destruct (attrs w !! name); apply frame_refl. Qed.

Lemma framed_setattr_random_state (v : value F G) :
  framed (setattr (C:=C) "_random_state" v : @M F C G unit).
Proof. intros w name Hname. cbn. apply lookup_insert_ne. congruence. Qed.

Ltac framed_step :=
  first
    [ apply framed_ret
    | apply framed_raise
    | apply framed_emit
    | apply framed_getattr
    | apply framed_setattr_random_state
    | apply framed_bind; [|intros ?]
    | match goal with
      | |- framed (match ?x with _ => _ end) => destruct x
      | |- framed (if ?b then _ else _) => destruct b
      end ].

Ltac framed := repeat framed_step.

Lemma framed_getattr_int (name : string) : framed (getattr_int (C:=C) name : @M F C G _).
Proof. unfold getattr_int. framed. Qed.

Lemma framed_draw {A} (method : string) (f : G → A * G) (r : generator) :
  framed (draw (F:=F) (C:=C) method f r).
Proof.
  destruct r as [|g|]; cbn [draw].
  - intros w name _. destruct (f (np_random w)). reflexivity.
  - destruct (f g). apply framed_ret.
  - apply framed_bind; [apply framed_getattr|]. intros [| | |g|]; try apply framed_raise.
    + destruct (f g). framed.
    + intros w name _. destruct (f (np_random w)). reflexivity.
Qed.

Lemma framed_has_method (method : string) : framed (has_method (F:=F) (C:=C) (G:=G) method).
Proof. unfold has_method. framed. Qed.

Lemma framed_checked_size (n : Z) : framed (checked_size (F:=F) (C:=C) (G:=G) n).
Proof. unfold checked_size. framed. Qed.

Lemma framed_np_int32 (z : Z) : framed (np_int32 (F:=F) (C:=C) (G:=G) z).
Proof. unfold np_int32. framed. Qed.

Lemma framed_slice_assign_array (a : list nat) (start stop : Z) (vs : list nat) :
  framed (slice_assign_array (F:=F) (C:=C) (G:=G) a start stop vs).
Proof. unfold slice_assign_array. destruct (slice_bounds _ _ _). framed. Qed.

Lemma framed_csc_matrix_from (data : list F) (ij0 ij1 : list nat) (shape : Z * Z) :
  framed (csc_matrix_from (C:=C) (G:=G) data ij0 ij1 shape).
Proof. unfold csc_matrix_from. framed. Qed.

Lemma framed_connect_row (cols k : Z) (st : list nat * list nat * Z * generator) (en : nat) :
  framed (connect_row (F:=F) (C:=C) cols k st en).
Proof.
  unfold connect_row. destruct st as [[[ij0 ij1] idx] r].
  apply framed_bind; [apply framed_draw|]. intros [p r'].
  apply framed_bind; [apply framed_slice_assign_array|]. intros. framed.
Qed.

Lemma framed_for_range {S} (body : S → nat → @M F C G S) (ens : list nat) (st : S) :
  (∀ st en, framed (body st en)) → framed (for_range body ens st).
Proof.
  intros Hbody. revert st. induction ens as [|en ens IH]; intros st; cbn [for_range].
  - apply framed_ret.
  - apply framed_bind; [apply Hbody|]. exact IH.
Qed.

Lemma framed_dense_weights (sample : nat → G → list F * G) (method : string)
    (scale : F → F) (rows cols : Z) (r : generator) :
  framed (dense_weights (C:=C) sample method scale rows cols r).
Proof.
  unfold dense_weights.
  apply framed_bind; [apply framed_checked_size|]. intros n.
  apply framed_bind; [apply framed_checked_size|]. intros m.
  apply framed_bind; [apply framed_draw|]. intros [values r']. framed.
Qed.

Lemma framed_sparse_weights (sample : nat → G → list F * G) (method : string)
    (scale : F → F) (rows cols k : Z) (r : generator) :
  framed (sparse_weights (C:=C) sample method scale rows cols k r).
Proof.
  unfold sparse_weights.
  apply framed_bind; [apply framed_np_int32|]. intros nr.
  apply framed_bind; [apply framed_checked_size|]. intros n.
  apply framed_bind; [apply framed_draw|]. intros [values r'].
  apply framed_bind; [apply framed_for_range, framed_connect_row|].
  intros [[[ij0 ij1] idx] r''].
  apply framed_bind; [apply framed_csc_matrix_from|]. intros. framed.
Qed.

Lemma framed_feedforward_weight_matrix (self : LayerConfig F) (n_features : Z)
    (r : generator) :
  framed (feedforward_weight_matrix (C:=C) self n_features r).
Proof.
  unfold feedforward_weight_matrix.
  apply framed_bind; [apply framed_getattr_int|]. intros n.
  destruct (k_in self =? -1); [apply framed_dense_weights|apply framed_sparse_weights].
Qed.

Lemma framed_reservoir_weights_draw : framed (reservoir_weights_draw (C:=C) (G:=G)).
Proof.
  unfold reservoir_weights_draw.
  apply framed_bind; [apply framed_getattr_int|]. intros k.
  destruct (k =? -1).
  - apply framed_bind; [apply framed_has_method|]. intros _.
    apply framed_bind; [apply framed_getattr_int|]. intros n.
    apply framed_bind; [apply framed_dense_weights|]. intros [m r]. framed.
  - apply framed_bind; [apply framed_getattr_int|]. intros n.
    apply framed_bind; [apply framed_sparse_weights|]. intros [m r]. framed.
Qed.

(** One attempt ends the loop: whether the draw raises or returns, what
    leaves the [try] statement is the [NameError] of its [except]
    clause, in the world the draw left. *)
Lemma reservoir_weights_loop_raises (attempts : nat)
    (locals : option (matrix F) * option (list C)) (w : world F G) :
  reservoir_weights_loop (S attempts) locals w
  = ((reservoir_weights_draw (C:=C) w).1, inl (NameError "ArpackNoConvergence")).
Proof.
  cbn [reservoir_weights_loop].
  destruct (reservoir_weights_draw w) as [w1 [e|m]]; reflexivity.
Qed.

Lemma reservoir_weights_raises (w : world F G) :
  reservoir_weights w
  = ((reservoir_weights_draw (C:=C) w).1, inl (NameError "ArpackNoConvergence")).
Proof.
  unfold reservoir_weights. change 50%nat with (S 49).
  apply bind_inl, reservoir_weights_loop_raises.
Qed.

Lemma framed_reservoir_weights_loop (attempts : nat)
    (locals : option (matrix F) * option (list C)) :
  framed (reservoir_weights_loop (G:=G) attempts locals).
Proof.
  destruct attempts as [|attempts]; [apply framed_ret|].
  intros w. rewrite reservoir_weights_loop_raises. apply framed_reservoir_weights_draw.
Qed.

Lemma framed_reservoir_weights : framed (reservoir_weights (G:=G)).
Proof.
  unfold reservoir_weights.
  apply framed_bind; [apply framed_reservoir_weights_loop|]. intros [[m|] [we|]]; framed.
  unfold normalize, amax. framed.
Qed.

Lemma framed_bias_weight_matrix (r : generator) : framed (bias_weight_matrix (F:=F) (C:=C) r).
Proof.
  unfold bias_weight_matrix.
  apply framed_bind; [apply framed_getattr_int|]. intros n.
  apply framed_bind; [apply framed_checked_size|]. intros m.
  apply framed_bind; [apply framed_draw|]. intros [values r']. framed.
Qed.

Lemma framed_check_random_state (seed : option Z) :
  framed (check_random_state (F:=F) (C:=C) (G:=G) seed).
Proof. unfold check_random_state. framed. Qed.

Lemma framed_generated_matrices (self : LayerConfig F) (n_features : Z) :
  framed (generated_matrices self n_features).
Proof.
  unfold generated_matrices.
  apply framed_bind; [apply framed_check_random_state|]. intros r.
  apply framed_bind; [apply framed_feedforward_weight_matrix|]. intros [ff r'].
  apply framed_bind; [apply framed_reservoir_weights|]. intros m.
  apply framed_bind; [apply framed_bias_weight_matrix|]. intros [b r'']. framed.
Qed.

(** ** The recurrent block never returns *)

(** [_initialize_weight_matrices] of [RecurrentLayer] raises on every
    call: what comes before the loop raises, or the first attempt
    does. *)
Lemma generated_matrices_raises (self : LayerConfig F) (n_features : Z) (w : world F G) :
  ∃ e, (generated_matrices self n_features w).2 = inl e.
Proof.
  unfold generated_matrices. rewrite bind_unfold.
  destruct (check_random_state (random_state self) w) as [w0 [e|r]]; [eauto|].
  rewrite bind_unfold.
  destruct (feedforward_weight_matrix self n_features r w0) as [w1 [e|[ff r1]]]; [eauto|].
  rewrite bind_unfold, reservoir_weights_raises. eauto.
Qed.

(** ** [fit], step by step *)

Lemma validate_parameters_attrs (self : LayerConfig F) (n_features : Z) (w : world F G) :
  attrs (_validate_parameters (C:=C) self n_features w).1 = attrs w.
Proof.
  unfold _validate_parameters, mbind, M_bind, bind, ret, raise, emit.
  repeat match goal with
         | |- context [if ?b then _ else _] => destruct b; cbn
         | |- context [match ?x with Some _ => _ | None => _ end] => destruct x; cbn
         end; reflexivity.
Qed.

Lemma getattr_matrix_value (name : string) (m : matrix F) (w : world F G) :
  attrs w !! name = Some (VMatrix m) → getattr_matrix (C:=C) name w = (w, inr m).
Proof.
  intros Hm. unfold getattr_matrix, getattr, mbind, M_bind, bind. rewrite Hm. reflexivity.
Qed.

(** [fit] of a [RecurrentLayer]: the input is checked, the number of
    features recorded, the parameters validated, [n_components_]
    assigned and the generation of the matrices called, whose result
    would be assigned. *)
Lemma fit_unfold (self : LayerConfig F) (X : list (list F)) (w : world F G) :
  fit self X w =
  match check_array (C:=C) X w with
  | (_, inl e) => (w, inl e)
  | (_, inr a) =>
      let n_features := Z.of_nat (nd_shape a).2 in
      match _validate_parameters self n_features
              (assign "n_features_in_" (VInt n_features) w) with
      | (w2, inl e) => (w2, inl e)
      | (w2, inr _) =>
          match generated_matrices self n_features
                  (assign "n_components_" (VInt (n_components self)) w2) with
          | (w4, inl e) => (w4, inl e)
          | (w4, inr (ff, _, b)) =>
              (assign "bias_weights_" (VVector b) (assign "input_weights_" (VMatrix ff) w4),
               inr tt)
          end
      end
  end.
Proof.
  unfold fit, _validate_data.
  pose proof (check_array_world X w) as Hw.
  destruct (check_array X w) as [w0 [e|a]] eqn:Hc; cbn in Hw; subst w0.
  { rewrite (bind_inl _ _ _ _ _ (bind_inl _ _ _ _ _ Hc)). reflexivity. }
  rewrite (bind_inr _ _ _ (assign "n_features_in_" (VInt (Z.of_nat (nd_shape a).2)) w) a)
    by (rewrite (bind_inr _ _ _ _ _ Hc); reflexivity).
  cbv zeta.
  destruct (_validate_parameters self _ _) as [w2 [e|[]]] eqn:Hv.
  { rewrite (bind_inl _ _ _ _ _ Hv). reflexivity. }
  rewrite (bind_inr _ _ _ _ _ Hv).
  rewrite (bind_inr _ _ _ (assign "n_components_" (VInt (n_components self)) w2) tt)
    by reflexivity.
  rewrite (bind_inr _ _ _ _ (n_components self))
    by (apply getattr_int_value; cbn; apply lookup_insert_eq).
  unfold _initialize_weight_matrices, RecurrentLayer, RecurrentLayer_initialize_weight_matrices.
  destruct (generated_matrices self _ _) as [w4 [e|[[ff rec] b]]] eqn:Hg.
  { rewrite (bind_inl _ _ _ _ _ (bind_inl _ _ _ _ _ Hg)). reflexivity. }
  destruct (generated_matrices_raises self (Z.of_nat (nd_shape a).2)
              (assign "n_components_" (VInt (n_components self)) w2)) as [e He].
  rewrite Hg in He. discriminate He.
Qed.

Lemma frame_assign_other (w w' : world F G) (name name' : string) (v : value F G) :
  frame (assign name v w) w' → name' ≠ name → name' ≠ "_random_state"%string →
  attrs w' !! name' = attrs w !! name'.
Proof.
  intros Hf Hne Hrs. rewrite (Hf name' Hrs). cbn. apply lookup_insert_ne. congruence.
Qed.

(** No call of [fit] on a [RecurrentLayer] returns. *)
Lemma fit_never_returns (self : LayerConfig F) (X : list (list F)) (w : world F G) :
  (fit self X w).2 ≠ inr tt.
Proof.
  rewrite fit_unfold.
  destruct (check_array X w) as [w0 [e0|a]]; [discriminate|]. cbv zeta.
  destruct (_validate_parameters self _ _) as [w2 [e2|[]]]; [discriminate|].
  destruct (generated_matrices_raises self (Z.of_nat (nd_shape a).2)
              (assign "n_components_" (VInt (n_components self)) w2)) as [e He].
  destruct (generated_matrices self _ _) as [w4 [e4|[[ff rec] b]]]; discriminate.
Qed.


(** ** What [fit] needs of the instance *)

Lemma validate_parameters_returns (self : LayerConfig F) (n_features : Z) (w : world F G) :
  valid_parameters self n_features →
  ∃ w2, _validate_parameters (C:=C) self n_features w = (w2, inr tt)
        ∧ attrs w2 = attrs w ∧ np_random w2 = np_random w.
Proof.
  intros (Hk1 & Hk2 & Hn & [act Hact] & Hr1 & Hr2).
  unfold _validate_parameters, mbind, M_bind, bind, ret, raise, emit.
  rewrite Hact. zbool; cbn; try lia.
  all: eexists; split; [reflexivity|split; reflexivity].
Qed.

Lemma validate_parameters_np_random (self : LayerConfig F) (n_features : Z) (w : world F G) :
  np_random (_validate_parameters (C:=C) self n_features w).1 = np_random w.
Proof.
  unfold _validate_parameters, mbind, M_bind, bind, ret, raise, emit.
  destruct (ACTIVATIONS !! activation_function self) as [act|] eqn:Hact;
    zbool; cbn; rewrite ?Hact; cbn; zbool; reflexivity.
Qed.

Lemma check_random_state_returns (seed : option Z) :
  valid_seed seed →
  ∃ r, (∀ w : world F G, check_random_state (C:=C) seed w = (w, inr r))
       ∧ ∀ w : world F G, (∃ g, current r w = Some g)
                          ∧ ∀ g, attrs (set_current r w g) = attrs w.
Proof.
  destruct seed as [s|]; cbn [valid_seed]; intros Hs; unfold check_random_state.
  - destruct (Z.leb_spec 0 s); [|lia]. destruct (Z.ltb_spec s (2 ^ 32)); [|lia].
    cbn [andb]. eexists. split; [reflexivity|]. intros w. split; [eexists|]; reflexivity.
  - exists NpRandom. split; [reflexivity|]. intros w. split; [eexists|]; reflexivity.
Qed.

Lemma feedforward_weight_matrix_returns (self : LayerConfig F) (n cols : Z) (r : generator)
    (w : world F G) (g : G) :
  attrs w !! "n_components_" = Some (VInt n) → 0 <= n → 0 <= cols →
  current r w = Some g →
  k_in self = -1 ∨ 1 <= k_in self <= cols ∧ n * k_in self < 2 ^ 31 →
  ∃ m g', feedforward_weight_matrix (C:=C) self cols r w
          = (set_current r w g', inr (m, with_state r g')).
Proof.
  intros Hattr Hn Hcols Hg Hk. unfold feedforward_weight_matrix.
  rewrite (bind_inr _ _ _ _ _ (getattr_int_value _ _ _ Hattr)).
  rewrite <- (Z2Nat.id n), <- (Z2Nat.id cols) by lia.
  destruct Hk as [->|[Hk Hfit]].
  - rewrite Z.eqb_refl.
    rewrite (dense_weights_run rand "rand" times2_minus1 _ _ r w g Hg). eauto.
  - destruct (Z.eqb_spec (k_in self) (-1)) as [|_]; [lia|].
    rewrite <- (Z2Nat.id (k_in self)) by lia.
    rewrite (sparse_weights_run rand "rand" times2_minus1 _ _ _ r w g Hg);
      [eauto|lia|rewrite !Z2Nat.id by lia; exact Hfit|apply rand_length].
Qed.

Lemma np_int32_fits (z : Z) (w : world F G) :
  - 2 ^ 31 <= z → z < 2 ^ 31 → np_int32 (C:=C) z w = (w, inr z).
Proof.
  intros Hlo Hhi. unfold np_int32.
  destruct (Z.ltb_spec z (- 2 ^ 31)); [lia|]. destruct (Z.leb_spec (2 ^ 31) z); [lia|].
  reflexivity.
Qed.

Lemma checked_size_nonneg (z : Z) (w : world F G) :
  0 <= z → checked_size (C:=C) z w = (w, inr (Z.to_nat z)).
Proof. intros Hz. unfold checked_size. destruct (Z.ltb_spec z 0); [lia|]. reflexivity. Qed.

(** On an accepted input, with valid parameters, a valid seed and a
    number of feedforward entries that fits in 32 bits, [fit] gets as
    far as the recurrent block and ends in the world that one draw of
    the recurrent weights leaves. The draw starts from a world [w5]
    with the attributes [fit] found, [n_features_in_] and
    [n_components_]. *)
Lemma fit_reaches_recurrent (self : LayerConfig F) (X : list (list F)) (w : world F G)
    (a : ndarray F) :
  (check_array (C:=C) X w).2 = inr a →
  valid_parameters self (Z.of_nat (nd_shape a).2) →
  valid_seed (random_state self) →
  (k_in self ≠ -1 → n_components self * k_in self < 2 ^ 31) →
  ∃ w5, fit self X w
        = ((reservoir_weights_draw (C:=C) w5).1, inl (NameError "ArpackNoConvergence"))
        ∧ attrs w5 = <["n_components_" := VInt (n_components self)]>
                       (<["n_features_in_" := VInt (Z.of_nat (nd_shape a).2)]> (attrs w))
        ∧ (∀ seed, random_state self = Some seed → np_random w5 = np_random w).
Proof.
  intros Ha Hvalid Hseed Hfit. rewrite fit_unfold.
  destruct (check_array X w) as [w0 [e0|a0]] eqn:Hc; [discriminate|].
  cbn in Ha. injection Ha as ->. cbv zeta.
  set (cols := Z.of_nat (nd_shape a).2) in *.
  destruct (validate_parameters_returns self cols
              (assign "n_features_in_" (VInt cols) w) Hvalid) as (w2 & Hv & Hattrs & Hnp).
  rewrite Hv.
  set (w3 := assign "n_components_" (VInt (n_components self)) w2).
  assert (attrs w3 !! "n_components_" = Some (VInt (n_components self))) as Hn3
    by apply lookup_insert_eq.
  destruct Hvalid as (Hk1 & Hk2 & Hn & _).
  destruct (check_random_state_returns (random_state self) Hseed) as (r & Hr & Hcur).
  destruct (Hcur w3) as ([g0 Hg0] & Hsame).
  destruct (feedforward_weight_matrix_returns self (n_components self) cols r w3 g0 Hn3)
    as (ff & g1 & Hff); [lia|unfold cols; lia|exact Hg0| |].
  { destruct (Z.eq_dec (k_in self) (-1)) as [|Hne]; [left; assumption|right].
    split; [lia|auto]. }
  exists (set_current r w3 g1).
  assert (generated_matrices self cols w3
          = ((reservoir_weights_draw (C:=C) (set_current r w3 g1)).1,
             inl (NameError "ArpackNoConvergence"))) as ->.
  { unfold generated_matrices.
    rewrite (bind_inr _ _ _ _ _ (Hr w3)), (bind_inr _ _ _ _ _ Hff).
    apply bind_inl, reservoir_weights_raises. }
  split; [reflexivity|]. split.
  - rewrite Hsame. unfold w3, assign. cbn [attrs]. rewrite Hattrs. reflexivity.
  - intros seed Hs. specialize (Hr w3). rewrite Hs in Hr. unfold check_random_state in Hr.
    destruct ((0 <=? seed) && (seed <? 2 ^ 32)); [|discriminate].
    injection Hr as <-. cbn [set_current]. unfold w3. cbn. exact Hnp.
Qed.

(** C6, as the code has it. When [fit] raises on its input the world is
    what it was. When it raises later, [n_features_in_] has been
    assigned, so that [check_is_fitted] accepts the instance from then
    on, and so has [n_components_] when the parameters were valid;
    every attribute other than these two and [_random_state] is what
    it was, [input_weights_] and [bias_weights_] among them. *)
Theorem fit_failure_state (self : LayerConfig F) (X : list (list F)) (w w' : world F G)
    (e : exn C) :
  fit self X w = (w', inl e) →
  ((∃ e', (check_array (C:=C) X w).2 = inl e') → w' = w)
  ∧ (∀ name, name ≠ "n_features_in_"%string → name ≠ "n_components_"%string →
             name ≠ "_random_state"%string → attrs w' !! name = attrs w !! name)
  ∧ (∀ a, (check_array (C:=C) X w).2 = inr a →
          attrs w' !! "n_features_in_" = Some (VInt (Z.of_nat (nd_shape a).2))
          ∧ check_is_fitted (C:=C) w' = (w', inr tt))
  ∧ (∀ a, (check_array (C:=C) X w).2 = inr a →
          (_validate_parameters (C:=C) self (Z.of_nat (nd_shape a).2)
             (assign "n_features_in_" (VInt (Z.of_nat (nd_shape a).2)) w)).2 = inr tt →
          attrs w' !! "n_components_" = Some (VInt (n_components self))).
Proof.
  rewrite fit_unfold.
  destruct (check_array X w) as [w0 [e0|a]] eqn:Hc; cbn [snd].
  { intros [= <- <-]. split; [reflexivity|]. split; [reflexivity|].
    split; intros a Ha; discriminate. }
  cbv zeta.
  pose proof (validate_parameters_attrs self (Z.of_nat (nd_shape a).2)
                (assign "n_features_in_" (VInt (Z.of_nat (nd_shape a).2)) w)) as Hva.
  destruct (_validate_parameters self _ _) as [w2 [e2|[]]] eqn:Hv; cbn [fst snd] in *.
  { intros [= <- <-]. split; [intros [e' He']; discriminate|].
    assert (attrs w2 !! "n_features_in_" = Some (VInt (Z.of_nat (nd_shape a).2))) as Hnf
      by (rewrite Hva; apply lookup_insert_eq).
    split; [|split].
    - intros name Hn1 _ _. rewrite Hva. cbn. apply lookup_insert_ne. congruence.
    - intros a' [= <-]. split; [exact Hnf|].
      eapply check_is_fitted_attribute; [exact Hnf|reflexivity].
    - intros a' [= <-] Hok. rewrite Hv in Hok. discriminate Hok. }
  pose proof (framed_generated_matrices self (Z.of_nat (nd_shape a).2)
                (assign "n_components_" (VInt (n_components self)) w2)) as Hf.
  destruct (generated_matrices self _ _) as [w4 [e4|[[ff rec] b]]] eqn:Hg;
    cbn [fst] in Hf; [|discriminate].
  intros [= <- <-]. split; [intros [e' He']; discriminate|].
  assert (attrs w4 !! "n_features_in_" = Some (VInt (Z.of_nat (nd_shape a).2))) as Hnf.
  { rewrite Hf by discriminate. cbn. rewrite lookup_insert_ne by discriminate.
    rewrite Hva. apply lookup_insert_eq. }
  split; [|split].
  - intros name Hn1 Hn2 Hn3.
    rewrite (frame_assign_other _ _ _ _ _ Hf) by assumption.
    rewrite Hva. cbn. apply lookup_insert_ne. congruence.
  - intros a' [= <-]. split; [exact Hnf|].
    eapply check_is_fitted_attribute; [exact Hnf|reflexivity].
  - intros a' _ _. rewrite Hf by discriminate. apply lookup_insert_eq.
Qed.

(** ** [fit] of any subclass *)



(** ** What the recurrent draw shows *)

Lemma silent_ret {A} (a : A) : silent (mret a : @M F C G A).
Proof. intros w. reflexivity. Qed.

Lemma silent_raise {A} (e : exn C) : silent (raise e : @M F C G A).
Proof. intros w. reflexivity. Qed.

Lemma silent_bind {A B} (m : @M F C G A) (k : A → @M F C G B) :
  silent m → (∀ a, silent (k a)) → silent (m ≫= k).
Proof.
  intros Hm Hk w. rewrite bind_unfold. specialize (Hm w).
  destruct (m w) as [w1 [e|a]]; cbn in *; [exact Hm|].
  rewrite Hk. exact Hm.
Qed.

Lemma silent_getattr (name : string) : silent (getattr (C:=C) name : @M F C G _).
Proof. intros w. unfold getattr. destruct (attrs w !! name); reflexivity. Qed.

Lemma silent_setattr (name : string) (v : value F G) :
  silent (setattr (C:=C) name v : @M F C G unit).
Proof. intros w. reflexivity. Qed.

Ltac silent_step :=
  first
    [ apply silent_ret
    | apply silent_raise
    | apply silent_getattr
    | apply silent_setattr
    | apply silent_bind; [|intros ?]
    | match goal with
      | |- silent (match ?x with _ => _ end) => destruct x
      | |- silent (if ?b then _ else _) => destruct b
      end ].

Ltac silent := repeat silent_step.

Lemma silent_getattr_int (name : string) : silent (getattr_int (C:=C) name : @M F C G _).
Proof. unfold getattr_int. silent. Qed.

Lemma silent_draw {A} (method : string) (f : G → A * G) (r : generator) :
  silent (draw (F:=F) (C:=C) method f r).
Proof.
  destruct r as [|g|]; cbn [draw].
  - intros w. destruct (f (np_random w)). reflexivity.
  - destruct (f g). apply silent_ret.
  - apply silent_bind; [apply silent_getattr|]. intros [| | |g|]; try apply silent_raise.
    + destruct (f g). silent.
    + intros w. destruct (f (np_random w)). reflexivity.
Qed.

Lemma silent_has_method (method : string) : silent (has_method (F:=F) (C:=C) (G:=G) method).
Proof. unfold has_method. silent. Qed.

Lemma silent_checked_size (n : Z) : silent (checked_size (F:=F) (C:=C) (G:=G) n).
Proof. unfold checked_size. silent. Qed.

Lemma silent_np_int32 (z : Z) : silent (np_int32 (F:=F) (C:=C) (G:=G) z).
Proof. unfold np_int32. silent. Qed.

Lemma silent_slice_assign_array (a : list nat) (start stop : Z) (vs : list nat) :
  silent (slice_assign_array (F:=F) (C:=C) (G:=G) a start stop vs).
Proof. unfold slice_assign_array. destruct (slice_bounds _ _ _). silent. Qed.

Lemma silent_csc_matrix_from (data : list F) (ij0 ij1 : list nat) (shape : Z * Z) :
  silent (csc_matrix_from (C:=C) (G:=G) data ij0 ij1 shape).
Proof. unfold csc_matrix_from. silent. Qed.

Lemma silent_connect_row (cols k : Z) (st : list nat * list nat * Z * generator) (en : nat) :
  silent (connect_row (F:=F) (C:=C) cols k st en).
Proof.
  unfold connect_row. destruct st as [[[ij0 ij1] idx] r].
  apply silent_bind; [apply silent_draw|]. intros [p r'].
  apply silent_bind; [apply silent_slice_assign_array|]. intros. silent.
Qed.

Lemma silent_for_range {S} (body : S → nat → @M F C G S) (ens : list nat) (st : S) :
  (∀ st en, silent (body st en)) → silent (for_range body ens st).
Proof.
  intros Hbody. revert st. induction ens as [|en ens IH]; intros st; cbn [for_range].
  - apply silent_ret.
  - apply silent_bind; [apply Hbody|]. exact IH.
Qed.

Lemma silent_dense_weights (sample : nat → G → list F * G) (method : string)
    (scale : F → F) (rows cols : Z) (r : generator) :
  silent (dense_weights (C:=C) sample method scale rows cols r).
Proof.
  unfold dense_weights.
  apply silent_bind; [apply silent_checked_size|]. intros n.
  apply silent_bind; [apply silent_checked_size|]. intros m.
  apply silent_bind; [apply silent_draw|]. intros [values r']. silent.
Qed.

Lemma silent_sparse_weights (sample : nat → G → list F * G) (method : string)
    (scale : F → F) (rows cols k : Z) (r : generator) :
  silent (sparse_weights (C:=C) sample method scale rows cols k r).
Proof.
  unfold sparse_weights.
  apply silent_bind; [apply silent_np_int32|]. intros nr.
  apply silent_bind; [apply silent_checked_size|]. intros n.
  apply silent_bind; [apply silent_draw|]. intros [values r'].
  apply silent_bind; [apply silent_for_range, silent_connect_row|].
  intros [[[ij0 ij1] idx] r''].
  apply silent_bind; [apply silent_csc_matrix_from|]. intros. silent.
Qed.

Lemma reservoir_weights_draw_output (w : world F G) :
  output (reservoir_weights_draw (C:=C) w).1 = output w.
Proof.
  revert w. change (silent (reservoir_weights_draw (C:=C) (G:=G))).
  unfold reservoir_weights_draw.
  apply silent_bind; [apply silent_getattr_int|]. intros k.
  destruct (k =? -1).
  - apply silent_bind; [apply silent_has_method|]. intros _.
    apply silent_bind; [apply silent_getattr_int|]. intros n.
    apply silent_bind; [apply silent_dense_weights|]. intros [m r]. silent.
  - apply silent_bind; [apply silent_getattr_int|]. intros n.
    apply silent_bind; [apply silent_sparse_weights|]. intros [m r]. silent.
Qed.

(** ** The recurrent draw *)


(** ** A generator of the call's own *)

Lemma constant_ret {A} (P : A → Prop) (a : A) : P a → constant P (mret a : @M F C G A).
Proof. intros Ha. exists (inr a). split; [reflexivity|]. intros a' [= <-]. exact Ha. Qed.

Lemma constant_raise {A} (P : A → Prop) (e : exn C) : constant P (raise e : @M F C G A).
Proof. exists (inl e). split; [reflexivity|]. intros a' Ha. discriminate. Qed.

Lemma constant_bind {A B} (P : A → Prop) (Q : B → Prop)
    (m : @M F C G A) (k : A → @M F C G B) :
  constant P m → (∀ a, P a → constant Q (k a)) → constant Q (m ≫= k).
Proof.
  intros (R & Hm & HP) Hk. destruct R as [e|a].
  - exists (inl e). split; [|intros b Hb; discriminate].
    intros w. rewrite bind_unfold, Hm. reflexivity.
  - destruct (Hk a (HP a eq_refl)) as (R' & Hka & HQ).
    exists R'. split; [|exact HQ].
    intros w. rewrite bind_unfold, Hm. apply Hka.
Qed.

Lemma constant_draw {A} (method : string) (f : G → A * G) (g : G) :
  constant (λ ar, is_fresh ar.2) (draw (F:=F) (C:=C) method f (Fresh g)).
Proof.
  cbn [draw]. destruct (f g) as [a g'] eqn:Hf.
  apply constant_ret. exists g'. reflexivity.
Qed.

Lemma constant_checked_size (n : Z) :
  constant (λ _, True) (checked_size (F:=F) (C:=C) (G:=G) n).
Proof. unfold checked_size. destruct (n <? 0); [apply constant_raise|apply constant_ret; exact I]. Qed.

Lemma constant_np_int32 (z : Z) : constant (λ _, True) (np_int32 (F:=F) (C:=C) (G:=G) z).
Proof. unfold np_int32. destruct (_ || _); [apply constant_raise|apply constant_ret; exact I]. Qed.

Lemma constant_slice_assign_array (a : list nat) (start stop : Z) (vs : list nat) :
  constant (λ _, True) (slice_assign_array (F:=F) (C:=C) (G:=G) a start stop vs).
Proof.
  unfold slice_assign_array. destruct (slice_bounds _ _ _).
  repeat match goal with
         | |- constant _ (if ?b then _ else _) => destruct b
         end; first [apply constant_raise|apply constant_ret; exact I].
Qed.

Lemma constant_csc_matrix_from (data : list F) (ij0 ij1 : list nat) (shape : Z * Z) :
  constant (λ _, True) (csc_matrix_from (C:=C) (G:=G) data ij0 ij1 shape).
Proof.
  unfold csc_matrix_from.
  repeat match goal with
         | |- constant _ (if ?b then _ else _) => destruct b
         end; first [apply constant_raise|apply constant_ret; exact I].
Qed.

Lemma constant_connect_row (cols k : Z) (ij0 ij1 : list nat) (idx : Z) (g : G) (en : nat) :
  constant (λ st : list nat * list nat * Z * generator, is_fresh st.2)
    (connect_row (F:=F) (C:=C) cols k (ij0, ij1, idx, Fresh g) en).
Proof.
  unfold connect_row.
  eapply constant_bind; [apply constant_draw|]. intros [p r] Hr. cbn in Hr. destruct Hr as [g' ->].
  eapply constant_bind; [apply constant_slice_assign_array|]. intros ij1' _.
  apply constant_ret. exists g'. reflexivity.
Qed.

Lemma constant_for_range (cols k : Z) (ens : list nat) :
  ∀ (ij0 ij1 : list nat) (idx : Z) (g : G),
    constant (λ st : list nat * list nat * Z * generator, is_fresh st.2)
      (for_range (connect_row (F:=F) (C:=C) cols k) ens (ij0, ij1, idx, Fresh g)).
Proof.
  induction ens as [|en ens IH]; intros ij0 ij1 idx g; cbn [for_range].
  - apply constant_ret. exists g. reflexivity.
  - eapply constant_bind; [apply constant_connect_row|].
    intros [[[ij0' ij1'] idx'] r] Hr. cbn in Hr. destruct Hr as [g' ->]. apply IH.
Qed.

Lemma constant_dense_weights (sample : nat → G → list F * G) (method : string)
    (scale : F → F) (rows cols : Z) (g : G) :
  constant (λ mr, is_fresh mr.2) (dense_weights (C:=C) sample method scale rows cols (Fresh g)).
Proof.
  unfold dense_weights.
  eapply constant_bind; [apply constant_checked_size|]. intros n _.
  eapply constant_bind; [apply constant_checked_size|]. intros m _.
  eapply constant_bind; [apply constant_draw|]. intros [values r] Hr.
  apply constant_ret. exact Hr.
Qed.

Lemma constant_sparse_weights (sample : nat → G → list F * G) (method : string)
    (scale : F → F) (rows cols k : Z) (g : G) :
  constant (λ mr, is_fresh mr.2)
    (sparse_weights (C:=C) sample method scale rows cols k (Fresh g)).
Proof.
  unfold sparse_weights.
  eapply constant_bind; [apply constant_np_int32|]. intros nr _.
  eapply constant_bind; [apply constant_checked_size|]. intros n _.
  eapply constant_bind; [apply constant_draw|]. intros [values r] Hr. cbn in Hr. destruct Hr as [g' ->].
  eapply constant_bind; [apply constant_for_range|].
  intros [[[ij0 ij1] idx] r] Hr.
  eapply constant_bind; [apply constant_csc_matrix_from|]. intros m _.
  apply constant_ret. exact Hr.
Qed.

(** With a generator of its own, the feedforward matrix depends on the
    world through [n_components_] alone, and leaves the world alone. *)
Lemma feedforward_weight_matrix_fresh (self : LayerConfig F) (cols n : Z) (g : G) :
  ∃ R, (∀ w : world F G, attrs w !! "n_components_" = Some (VInt n) →
          feedforward_weight_matrix (C:=C) self cols (Fresh g) w = (w, R))
       ∧ ∀ m r, R = inr (m, r) → is_fresh r.
Proof.
  assert (constant (λ mr, is_fresh mr.2)
            (if k_in self =? -1
             then dense_weights (C:=C) rand "rand" times2_minus1 n cols (Fresh g)
             else sparse_weights (C:=C) rand "rand" times2_minus1 n cols (k_in self) (Fresh g)))
    as (R & HR & Hfresh).
  { destruct (k_in self =? -1); [apply constant_dense_weights|apply constant_sparse_weights]. }
  exists R. split.
  - intros w Hn. unfold feedforward_weight_matrix.
    rewrite (bind_inr _ _ _ _ _ (getattr_int_value _ _ _ Hn)). apply HR.
  - intros m r ->. apply (Hfresh (m, r) eq_refl).
Qed.


(** ** The rescaling *)


(** ** No branch for [spectral_radius] *)


(** ** The retry loop *)

(** C4, where the code departs from it. The module binds neither
    [eigens] nor [ArpackNoConvergence], so no solver is called and
    nothing is retried: however many attempts are left, the loop makes
    one draw and raises [NameError] from the [except] clause, having
    printed nothing; the recurrent block raises with it, and no [fit]
    returns. *)
Theorem first_attempt_raises (w : world F G) :
  (∀ attempts locals,
     reservoir_weights_loop (S attempts) locals w
     = ((reservoir_weights_draw (C:=C) w).1, inl (NameError "ArpackNoConvergence")))
  ∧ reservoir_weights w
    = ((reservoir_weights_draw (C:=C) w).1, inl (NameError "ArpackNoConvergence"))
  ∧ output (reservoir_weights w).1 = output w
  ∧ ∀ self X, (fit self X w).2 ≠ inr tt.
Proof.
  split; [intros attempts locals; apply reservoir_weights_loop_raises|].
  split; [apply reservoir_weights_raises|].
  split; [rewrite reservoir_weights_raises; apply reservoir_weights_draw_output|].
  intros self X. apply fit_never_returns.
Qed.

(** * Further properties of the layer *)

(** ** [transform] reads, and only reads *)

Lemma leaves_world_ret {A} (a : A) : leaves_world (mret a : @M F C G A).
Proof. intros w. reflexivity. Qed.

Lemma leaves_world_raise {A} (e : exn C) : leaves_world (raise e : @M F C G A).
Proof. intros w. reflexivity. Qed.

Lemma leaves_world_bind {A B} (m : @M F C G A) (k : A → @M F C G B) :
  leaves_world m → (∀ a, leaves_world (k a)) → leaves_world (m ≫= k).
Proof.
  intros Hm Hk w. rewrite bind_unfold. specialize (Hm w).
  destruct (m w) as [w1 [e|a]]; cbn in *; [exact Hm|].
  subst w1. apply Hk.
Qed.

Lemma leaves_world_getattr (name : string) :
  leaves_world (getattr (C:=C) name : @M F C G _).
Proof. intros w. unfold getattr. destruct (attrs w !! name); reflexivity. Qed.

Lemma leaves_world_check_is_fitted : leaves_world (check_is_fitted (F:=F) (C:=C) (G:=G)).
Proof. intros w. unfold check_is_fitted. destruct (existsb _ _); reflexivity. Qed.

Ltac leaves_world_step :=
  first
    [ apply leaves_world_ret
    | apply leaves_world_raise
    | apply leaves_world_getattr
    | apply leaves_world_check_is_fitted
    | apply leaves_world_bind; [|intros ?]
    | match goal with
      | |- leaves_world (match ?x with _ => _ end) => destruct x
      | |- leaves_world (if ?b then _ else _) => destruct b
      end ].

(** X1. [transform] assigns nothing and draws nothing: whatever the
    input and whatever the state of the instance, and whether it
    returns or raises, the attributes of the instance and the state of
    numpy's global generator are what they were. *)
Theorem transform_leaves_world (self : LayerConfig F) (X : list (list F)) (w : world F G) :
  attrs (transform (C:=C) self X w).1 = attrs w
  ∧ np_random (transform (C:=C) self X w).1 = np_random w.
Proof.
  enough ((transform (C:=C) self X w).1 = w) as -> by (split; reflexivity).
  revert w. change (leaves_world (transform (C:=C) (G:=G) self X)).
  unfold transform.
  apply leaves_world_bind; [exact (check_array_world X)|]. intros a.
  unfold getattr_matrix, getattr_vector, safe_sparse_dot, add_broadcast.
  repeat leaves_world_step.
Qed.



(** ** [fit], then [transform] *)


(** ** The error of [fit] *)

(** X3. Whatever attributes the instance has, [k_res] among them or
    not: on an accepted input, with valid parameters, a valid seed and
    a number of feedforward entries that fits in 32 bits, what [fit]
    raises is the [NameError] for [ArpackNoConvergence]. *)
Theorem fit_raises_name_error (self : LayerConfig F) (X : list (list F)) (w : world F G)
    (a : ndarray F) :
  (check_array (C:=C) X w).2 = inr a →
  valid_parameters self (Z.of_nat (nd_shape a).2) →
  valid_seed (random_state self) →
  (k_in self ≠ -1 → n_components self * k_in self < 2 ^ 31) →
  (fit self X w).2 = inl (NameError "ArpackNoConvergence").
Proof.
  intros Ha Hvalid Hseed Hfit.
  destruct (fit_reaches_recurrent self X w a Ha Hvalid Hseed Hfit) as (w5 & -> & _).
  reflexivity.
Qed.

(** ** The message for [k_rec] *)

(** X5. With [k_rec] larger than [n_components] and nothing else wrong,
    [fit] raises a [ValueError] whose message is the one for [k_in] and
    whose arguments are [n_components] and the value of [k_in], not the
    one of [k_rec]. *)
Theorem fit_k_rec_too_large (self : LayerConfig F) (X : list (list F)) (w : world F G)
    (a : ndarray F) :
  (check_array (C:=C) X w).2 = inr a →
  k_in self = -1 ∨ 1 <= k_in self <= Z.of_nat (nd_shape a).2 →
  0 < n_components self →
  is_Some (ACTIVATIONS !! activation_function self) →
  n_components self < k_rec self →
  (fit self X w).2
  = inl (ValueError "k_in must not be larger than %s, got %s"
           [FInt (n_components self); FInt (k_in self)]).
Proof.
  intros Ha Hk Hn [act Hact] Hr. rewrite fit_unfold.
  destruct (check_array X w) as [w0 [e0|a0]] eqn:Hc; [discriminate|].
  cbn in Ha. injection Ha as ->. cbv zeta.
  unfold _validate_parameters, mbind, M_bind, bind, ret, raise, emit.
  rewrite Hact. zbool; cbn; try lia; reflexivity.
Qed.

(** ** [fit] and the subclasses of [BaseRecurrentLayer] *)

(** X6. [fit] stores what [_initialize_weight_matrices] returns before
    it checks the contract, whatever subclass provides the method:
    when the matrix has the shape [(n_components_, n_features)], [fit]
    returns; when it has not, [fit] raises [AssertionError], and both
    weights are attributes of the instance all the same, which passes
    [check_is_fitted] from then on. *)
Theorem fit_stores_before_contract (L : @Layer F C G) (self : LayerConfig F)
    (X : list (list F)) (w w2 w4 : world F G) (a : ndarray F) (W : matrix F) (b : list F)
    (n : Z) :
  (check_array (C:=C) X w).2 = inr a →
  _validate_parameters (C:=C) self (Z.of_nat (nd_shape a).2)
    (assign "n_features_in_" (VInt (Z.of_nat (nd_shape a).2)) w) = (w2, inr tt) →
  _initialize_weight_matrices (Layer:=L) self (n_components self) (Z.of_nat (nd_shape a).2)
    (assign "n_components_" (VInt (n_components self)) w2) = (w4, inr (W, b)) →
  attrs w4 !! "n_components_" = Some (VInt n) →
  (Z.of_nat (matrix_shape W).1 = n ∧ (matrix_shape W).2 = (nd_shape a).2 →
   fit (H2:=L) self X w
   = (assign "bias_weights_" (VVector b) (assign "input_weights_" (VMatrix W) w4), inr tt))
  ∧ (¬ (Z.of_nat (matrix_shape W).1 = n ∧ (matrix_shape W).2 = (nd_shape a).2) →
     fit (H2:=L) self X w
     = (assign "bias_weights_" (VVector b) (assign "input_weights_" (VMatrix W) w4),
        inl (AssertionError
               "An error has occurred the self.components_ matrix has not the proper shape."))
     ∧ check_is_fitted (C:=C)
         (assign "bias_weights_" (VVector b) (assign "input_weights_" (VMatrix W) w4))
       = (assign "bias_weights_" (VVector b) (assign "input_weights_" (VMatrix W) w4),
          inr tt)).
Proof.
  intros Ha Hv Hinit Hn.
  pose proof (check_array_world X w) as Hw.
  destruct (check_array X w) as [w0 r] eqn:Hc. cbn in Ha, Hw. subst w0 r.
  set (w5 := assign "bias_weights_" (VVector b) (assign "input_weights_" (VMatrix W) w4)).
  assert (fit (H2:=L) self X w
          = (w5, if (Z.of_nat (matrix_shape W).1 =? n)
                    && (Z.of_nat (matrix_shape W).2 =? Z.of_nat (nd_shape a).2)
                 then inr tt
                 else inl (AssertionError
                             "An error has occurred the self.components_ matrix has not the proper shape.")))
    as Hfit.
  { unfold fit, _validate_data.
    rewrite (bind_inr _ _ _ (assign "n_features_in_" (VInt (Z.of_nat (nd_shape a).2)) w) a)
      by (rewrite (bind_inr _ _ _ _ _ Hc); reflexivity).
    cbv zeta. rewrite (bind_inr _ _ _ _ _ Hv).
    rewrite (bind_inr _ _ _ (assign "n_components_" (VInt (n_components self)) w2) tt)
      by reflexivity.
    rewrite (bind_inr _ _ _ _ (n_components self))
      by (apply getattr_int_value; cbn; apply lookup_insert_eq).
    rewrite (bind_inr _ _ _ _ _ Hinit).
    rewrite (bind_inr _ _ _ (assign "input_weights_" (VMatrix W) w4) tt) by reflexivity.
    rewrite (bind_inr _ _ _ w5 tt) by reflexivity.
    rewrite (bind_inr _ _ _ _ W)
      by (apply getattr_matrix_value; cbn;
          rewrite lookup_insert_ne by discriminate; apply lookup_insert_eq).
    rewrite (bind_inr _ _ _ _ n)
      by (apply getattr_int_value; cbn;
          rewrite !lookup_insert_ne by discriminate; exact Hn).
    destruct (_ && _); reflexivity. }
  rewrite Hfit. split.
  - intros [H1n H2n]. rewrite H1n, H2n, !Z.eqb_refl. reflexivity.
  - intros Hshape. split.
    + destruct (Z.eqb_spec (Z.of_nat (matrix_shape W).1) n) as [H1n|]; [|reflexivity].
      destruct (Z.eqb_spec (Z.of_nat (matrix_shape W).2) (Z.of_nat (nd_shape a).2)) as [H2n|];
        [|reflexivity].
      exfalso. apply Hshape. split; [exact H1n|lia].
    + apply (check_is_fitted_attribute w5 "bias_weights_" (VVector b));
        [apply lookup_insert_eq|reflexivity].
Qed.

(** ** The recurrent weights *)

(** The rows of a matrix built from [rn] permutations of [cn] columns,
    [kn] entries each. *)
Lemma row_columns_drawn (data : list F) (rn cn kn : nat) (g : G) (en : nat) :
  (kn ≤ cn)%nat → length data = (rn * kn)%nat → (en < rn)%nat →
  let s := mk_csc (rn, cn) data (concat (map (λ en, repeat en kn) (seq 0 rn)))
             (concat (map (firstn kn) (row_permutations cn g rn).1)) in
  length (row_columns s en) = kn
  ∧ NoDup (row_columns s en)
  ∧ Forall (λ c, (c < cn)%nat) (row_columns s en)
  ∧ ∃ g', row_columns s en = firstn kn (permutation cn g').1.
Proof.
  intros Hkn Hdata Hen s. unfold s, row_columns, csc_entries.
  cbn [csc_data csc_row csc_col].
  set (ps := (row_permutations cn g rn).1).
  assert (length ps = rn) as Hps by apply row_permutations_length.
  destruct (lookup_lt_is_Some_2 ps en ltac:(lia)) as [p Hp].
  assert (∃ g', p = (permutation cn g').1) as [g' ->].
  { pose proof (row_permutations_drawn cn rn g) as Hd.
    rewrite Forall_forall in Hd. apply Hd. eapply list_elem_of_lookup_2, Hp. }
  rewrite (row_columns_blocks kn (seq 0 rn) (map (firstn kn) ps) _ en en).
  - rewrite lookup_map, Hp. cbn [fmap option_fmap option_map default from_option id].
    pose proof (permutation_Permutation cn g') as Hperm.
    split; [rewrite length_firstn, permutation_length; lia|].
    split; [|split; [|eauto]].
    + apply (sublist_NoDup _ (permutation cn g').1); [|apply sublist_take].
      rewrite Hperm. apply NoDup_seq.
    + rewrite Forall_forall. intros c Hc.
      apply list_elem_of_In, firstn_incl in Hc.
      apply (Permutation_in _ Hperm), in_seq in Hc. lia.
  - apply NoDup_seq.
  - rewrite Forall_forall. intros b Hb.
    apply list_elem_of_In, in_map_iff in Hb as (p' & <- & Hp').
    pose proof (row_permutations_lengths cn rn g) as Hl.
    rewrite Forall_forall in Hl. apply list_elem_of_In, Hl in Hp'.
    rewrite length_firstn. lia.
  - rewrite length_map, length_seq. exact Hps.
  - rewrite length_seq. lia.
  - apply lookup_seq_lt. exact Hen.
Qed.

(** X7. With [k_res] between 1 and [reservoir_size], one draw of the
    raw recurrent weights returns a sparse square matrix of that size
    whose values are the [randn] draws of [self._random_state] and
    whose every row stores exactly [k_res] entries, at distinct columns
    below [reservoir_size]; [self._random_state] has moved on and no
    other attribute has changed. Neither [k_rec] nor [n_components]
    has a part in it. *)
Theorem reservoir_fan_in (size k : nat) (w : world F G) (g : G) :
  attrs w !! "k_res" = Some (VInt (Z.of_nat k)) →
  attrs w !! "reservoir_size" = Some (VInt (Z.of_nat size)) →
  attrs w !! "_random_state" = Some (VRandomState g) →
  (1 ≤ k ≤ size)%nat →
  Z.of_nat size * Z.of_nat k < 2 ^ 31 →
  ∃ s g',
    reservoir_weights_draw (C:=C) w = (assign "_random_state" (VRandomState g') w, inr (Sparse s))
    ∧ csc_shape s = (size, size)
    ∧ csc_data s = (randn (size * k)%nat g).1
    ∧ ∀ en, (en < size)%nat →
        length (row_columns s en) = k
        ∧ NoDup (row_columns s en)
        ∧ Forall (λ c, (c < size)%nat) (row_columns s en)
        ∧ ∃ g'', row_columns s en = firstn k (permutation size g'').1.
Proof.
  intros Hk Hsize Hg Hrange Hfit. unfold reservoir_weights_draw.
  rewrite (bind_inr _ _ _ _ _ (getattr_int_value _ _ _ Hk)).
  destruct (Z.eqb_spec (Z.of_nat k) (-1)) as [|_]; [lia|].
  rewrite (bind_inr _ _ _ _ _ (getattr_int_value _ _ _ Hsize)).
  assert (current SelfRandomState w = Some g) as Hcur by (cbn; rewrite Hg; reflexivity).
  rewrite (bind_inr _ _ _ _ _
             (sparse_weights_run randn "randn" id size size k SelfRandomState w g Hcur
                ltac:(lia) Hfit randn_length)).
  cbn [set_current]. rewrite Hg.
  eexists _, _. split; [reflexivity|].
  cbn [csc_shape csc_data]. split; [reflexivity|]. split; [apply map_id|].
  intros en Hen. apply row_columns_drawn; [lia| |exact Hen].
  rewrite length_map. apply randn_length.
Qed.

(** X8. [k_res] is checked nowhere: with [k_res] larger than a
    [reservoir_size] of two or more, the first row's permutation is
    shorter than the slice it is assigned to, and the draw of the
    recurrent weights raises numpy's [ValueError] for the two lengths.
    The caller does not see it: raised inside [try], it leaves the
    recurrent block as the [NameError] of the [except] clause. *)
Theorem unchecked_k_res_raises (size k : nat) (w : world F G) (g : G) :
  attrs w !! "k_res" = Some (VInt (Z.of_nat k)) →
  attrs w !! "reservoir_size" = Some (VInt (Z.of_nat size)) →
  attrs w !! "_random_state" = Some (VRandomState g) →
  (1 < size < k)%nat →
  Z.of_nat size * Z.of_nat k < 2 ^ 31 →
  (reservoir_weights_draw (C:=C) w).2
  = inl (ValueError "could not broadcast input array from shape (%s,) into shape (%s,)"
           [FInt (Z.of_nat size); FInt (Z.of_nat k)])
  ∧ (reservoir_weights w).2 = inl (NameError "ArpackNoConvergence").
Proof.
  intros Hk Hsize Hg Hrange Hfit.
  split; [|rewrite reservoir_weights_raises; reflexivity].
  enough (∃ w', reservoir_weights_draw (C:=C) w
                = (w', inl (ValueError
                              "could not broadcast input array from shape (%s,) into shape (%s,)"
                              [FInt (Z.of_nat size); FInt (Z.of_nat k)]))) as [w' ->]
    by reflexivity.
  unfold reservoir_weights_draw.
  rewrite (bind_inr _ _ _ _ _ (getattr_int_value _ _ _ Hk)).
  destruct (Z.eqb_spec (Z.of_nat k) (-1)) as [|_]; [lia|].
  rewrite (bind_inr _ _ _ _ _ (getattr_int_value _ _ _ Hsize)).
  assert (current SelfRandomState w = Some g) as Hcur by (cbn; rewrite Hg; reflexivity).
  unfold sparse_weights.
  assert (0 <= Z.of_nat size * Z.of_nat k) as Hpos by nia.
  eexists. apply bind_inl.
  rewrite (bind_inr _ _ _ _ _ (np_int32_fits (Z.of_nat size * Z.of_nat k) w ltac:(lia) Hfit)).
  rewrite (bind_inr _ _ _ _ _ (checked_size_nonneg _ w Hpos)).
  rewrite (bind_inr _ _ _ _ _ (draw_current "randn" _ SelfRandomState w g Hcur)).
  cbn [with_state]. apply bind_inl.
  rewrite Nat2Z.id. destruct size as [|size']; [lia|].
  cbn [seq for_range]. apply bind_inl. unfold connect_row.
  set (w1 := set_current SelfRandomState w _).
  assert (current SelfRandomState w1 = Some (randn (Z.to_nat (Z.of_nat (S size') * Z.of_nat k)) g).2)
    as Hcur1 by exact (current_set_current SelfRandomState w _).
  rewrite (bind_inr _ _ _ _ _ (draw_current "permutation" _ SelfRandomState w1 _ Hcur1)).
  apply bind_inl. cbv zeta.
  set (p := (permutation _ _).1).
  assert (length p = S size') as Hp by (unfold p; rewrite permutation_length; lia).
  assert (length (slice_take p (Z.of_nat k)) = S size') as Hper.
  { unfold slice_take, slice_bounds, slice_index. cbn [fst snd].
    rewrite Z.ltb_irrefl. destruct (Z.ltb_spec (Z.of_nat k) 0); [lia|].
    rewrite length_firstn, Hp. lia. }
  assert (slice_bounds (length (repeat 0%nat (Z.to_nat (Z.of_nat (S size') * Z.of_nat k))))
            0 (0 + Z.of_nat k) = (0%nat, k)) as Hbounds.
  { unfold slice_bounds, slice_index. rewrite repeat_length, Z.ltb_irrefl.
    destruct (Z.ltb_spec (0 + Z.of_nat k) 0); [lia|]. f_equal; nia. }
  unfold slice_assign_array. rewrite Hbounds, Hper.
  destruct (Nat.eqb_spec (S size') k); [lia|].
  destruct (Nat.eqb_spec (S size') 1); [lia|].
  reflexivity.
Qed.

(** ** numpy's global generator *)

Lemma keeps_np_random_ret {A} (P : A → Prop) (a : A) :
  P a → keeps_np_random P (mret a : @M F C G A).
Proof. intros Ha w Hw. split; [exact Hw|]. split; [reflexivity|]. intros a' [= <-]. exact Ha. Qed.

Lemma keeps_np_random_raise {A} (P : A → Prop) (e : exn C) :
  keeps_np_random P (raise e : @M F C G A).
Proof. intros w Hw. split; [exact Hw|]. split; [reflexivity|]. intros a' [=]. Qed.

Lemma keeps_np_random_bind {A B} (P : A → Prop) (Q : B → Prop)
    (m : @M F C G A) (k : A → @M F C G B) :
  keeps_np_random P m → (∀ a, P a → keeps_np_random Q (k a)) → keeps_np_random Q (m ≫= k).
Proof.
  intros Hm Hk w Hw. rewrite bind_unfold. destruct (Hm w Hw) as (Hown & Hnp & HP).
  destruct (m w) as [w1 [e|a]]; cbn in *.
  - split; [exact Hown|]. split; [exact Hnp|]. intros b [=].
  - destruct (Hk a (HP a eq_refl) w1 Hown) as (Hown' & Hnp' & HQ).
    split; [exact Hown'|]. split; [congruence|exact HQ].
Qed.

Lemma keeps_np_random_pure {A} (m : @M F C G A) :
  (∀ w, (m w).1 = w) → keeps_np_random (λ _, True) m.
Proof.
  intros Hm w Hw. rewrite Hm. split; [exact Hw|]. split; [reflexivity|]. intros _ _. exact I.
Qed.

Lemma keeps_np_random_getattr_int (name : string) :
  keeps_np_random (λ _, True) (getattr_int (C:=C) name : @M F C G _).
Proof.
  apply keeps_np_random_pure. intros w. unfold getattr_int, getattr, mbind, M_bind, bind.
  destruct (attrs w !! name) as [[]|]; reflexivity.
Qed.

Lemma keeps_np_random_draw {A} (method : string) (f : G → A * G) (r : generator) :
  is_local r → keeps_np_random (λ ar, is_local ar.2) (draw (F:=F) (C:=C) method f r).
Proof.
  intros Hr. destruct r as [|g|]; [contradiction| |]; cbn [draw].
  - destruct (f g) as [a g']. apply keeps_np_random_ret. discriminate.
  - intros w Hw. unfold own_generator in *.
    unfold getattr, setattr, mbind, M_bind, bind, ret, raise.
    destruct (attrs w !! "_random_state") as [[| | |g|]|] eqn:Hrs; cbn;
      try (split; [rewrite Hrs; discriminate|split; [reflexivity|intros a [=]]]).
    + destruct (f g) as [a g']. cbn. split; [rewrite lookup_insert_eq; discriminate|].
      split; [reflexivity|]. intros a' [= <-]. discriminate.
    + contradiction.
Qed.

Lemma keeps_np_random_has_method (method : string) :
  keeps_np_random (λ _, True) (has_method (F:=F) (C:=C) (G:=G) method).
Proof.
  apply keeps_np_random_pure. intros w. unfold has_method, getattr, mbind, M_bind, bind.
  destruct (attrs w !! "_random_state") as [[]|]; reflexivity.
Qed.

Lemma keeps_np_random_checked_size (n : Z) :
  keeps_np_random (λ _, True) (checked_size (F:=F) (C:=C) (G:=G) n).
Proof.
  unfold checked_size.
  destruct (n <? 0); [apply keeps_np_random_raise|apply keeps_np_random_ret; exact I].
Qed.

Lemma keeps_np_random_np_int32 (z : Z) :
  keeps_np_random (λ _, True) (np_int32 (F:=F) (C:=C) (G:=G) z).
Proof.
  unfold np_int32.
  destruct (_ || _); [apply keeps_np_random_raise|apply keeps_np_random_ret; exact I].
Qed.

Lemma keeps_np_random_slice_assign_array (a : list nat) (start stop : Z) (vs : list nat) :
  keeps_np_random (λ _, True) (slice_assign_array (F:=F) (C:=C) (G:=G) a start stop vs).
Proof.
  unfold slice_assign_array. destruct (slice_bounds _ _ _).
  repeat match goal with
         | |- keeps_np_random _ (if ?b then _ else _) => destruct b
         end; first [apply keeps_np_random_raise|apply keeps_np_random_ret; exact I].
Qed.

Lemma keeps_np_random_csc_matrix_from (data : list F) (ij0 ij1 : list nat) (shape : Z * Z) :
  keeps_np_random (λ _, True) (csc_matrix_from (C:=C) (G:=G) data ij0 ij1 shape).
Proof.
  unfold csc_matrix_from.
  repeat match goal with
         | |- keeps_np_random _ (if ?b then _ else _) => destruct b
         end; first [apply keeps_np_random_raise|apply keeps_np_random_ret; exact I].
Qed.

Lemma keeps_np_random_connect_row (cols k : Z) (ij0 ij1 : list nat) (idx : Z)
    (r : generator) (en : nat) :
  is_local r →
  keeps_np_random (λ st : list nat * list nat * Z * generator, is_local st.2)
    (connect_row (F:=F) (C:=C) cols k (ij0, ij1, idx, r) en).
Proof.
  intros Hr. unfold connect_row.
  eapply keeps_np_random_bind; [apply keeps_np_random_draw, Hr|]. intros [p r'] Hr'.
  eapply keeps_np_random_bind; [apply keeps_np_random_slice_assign_array|]. intros ij1' _.
  apply keeps_np_random_ret. exact Hr'.
Qed.

Lemma keeps_np_random_for_range (cols k : Z) (ens : list nat) :
  ∀ (ij0 ij1 : list nat) (idx : Z) (r : generator),
    is_local r →
    keeps_np_random (λ st : list nat * list nat * Z * generator, is_local st.2)
      (for_range (connect_row (F:=F) (C:=C) cols k) ens (ij0, ij1, idx, r)).
Proof.
  induction ens as [|en ens IH]; intros ij0 ij1 idx r Hr; cbn [for_range].
  - apply keeps_np_random_ret. exact Hr.
  - eapply keeps_np_random_bind; [apply keeps_np_random_connect_row, Hr|].
    intros [[[ij0' ij1'] idx'] r'] Hr'. apply IH. exact Hr'.
Qed.

Lemma keeps_np_random_dense_weights (sample : nat → G → list F * G) (method : string)
    (scale : F → F) (rows cols : Z) (r : generator) :
  is_local r →
  keeps_np_random (λ mr, is_local mr.2)
    (dense_weights (C:=C) sample method scale rows cols r).
Proof.
  intros Hr. unfold dense_weights.
  eapply keeps_np_random_bind; [apply keeps_np_random_checked_size|]. intros n _.
  eapply keeps_np_random_bind; [apply keeps_np_random_checked_size|]. intros m _.
  eapply keeps_np_random_bind; [apply keeps_np_random_draw, Hr|]. intros [values r'] Hr'.
  apply keeps_np_random_ret. exact Hr'.
Qed.

Lemma keeps_np_random_sparse_weights (sample : nat → G → list F * G) (method : string)
    (scale : F → F) (rows cols k : Z) (r : generator) :
  is_local r →
  keeps_np_random (λ mr, is_local mr.2)
    (sparse_weights (C:=C) sample method scale rows cols k r).
Proof.
  intros Hr. unfold sparse_weights.
  eapply keeps_np_random_bind; [apply keeps_np_random_np_int32|]. intros nr _.
  eapply keeps_np_random_bind; [apply keeps_np_random_checked_size|]. intros n _.
  eapply keeps_np_random_bind; [apply keeps_np_random_draw, Hr|]. intros [values r'] Hr'.
  eapply keeps_np_random_bind; [apply keeps_np_random_for_range, Hr'|].
  intros [[[ij0 ij1] idx] r''] Hr''.
  eapply keeps_np_random_bind; [apply keeps_np_random_csc_matrix_from|]. intros m _.
  apply keeps_np_random_ret. exact Hr''.
Qed.

Lemma keeps_np_random_reservoir_weights_draw :
  keeps_np_random (λ _, True) (reservoir_weights_draw (C:=C) (G:=G)).
Proof.
  assert (is_local (G:=G) SelfRandomState) as Hself by discriminate.
  unfold reservoir_weights_draw.
  eapply keeps_np_random_bind; [apply keeps_np_random_getattr_int|]. intros k _.
  destruct (k =? -1).
  - eapply keeps_np_random_bind; [apply keeps_np_random_has_method|]. intros _ _.
    eapply keeps_np_random_bind; [apply keeps_np_random_getattr_int|]. intros n _.
    eapply keeps_np_random_bind; [apply keeps_np_random_dense_weights, Hself|].
    intros [m r] _. apply keeps_np_random_ret. exact I.
  - eapply keeps_np_random_bind; [apply keeps_np_random_getattr_int|]. intros n _.
    eapply keeps_np_random_bind; [apply keeps_np_random_sparse_weights, Hself|].
    intros [m r] _. apply keeps_np_random_ret. exact I.
Qed.

(** X9. With an integer seed, on an instance whose [_random_state] is
    not numpy's global generator, [fit] leaves that generator in the
    state it found it in: the feedforward weights come from a
    generator of the call's own, the recurrent ones from the
    instance's. *)
Theorem fit_seeded_keeps_np_random (self : LayerConfig F) (seed : Z) (X : list (list F))
    (w : world F G) :
  random_state self = Some seed →
  attrs w !! "_random_state" ≠ Some VNpRandom →
  np_random (fit self X w).1 = np_random w.
Proof.
  intros Hseed Hown. rewrite fit_unfold.
  pose proof (check_array_world X w) as Hw.
  destruct (check_array X w) as [w0 [e0|a]] eqn:Hc; cbn in Hw; subst w0; [reflexivity|].
  cbv zeta.
  pose proof (validate_parameters_np_random self (Z.of_nat (nd_shape a).2)
                (assign "n_features_in_" (VInt (Z.of_nat (nd_shape a).2)) w)) as Hv.
  pose proof (validate_parameters_attrs self (Z.of_nat (nd_shape a).2)
                (assign "n_features_in_" (VInt (Z.of_nat (nd_shape a).2)) w)) as Hva.
  destruct (_validate_parameters self _ _) as [w2 [e2|[]]]; cbn [fst] in Hv, Hva; [exact Hv|].
  set (w3 := assign "n_components_" (VInt (n_components self)) w2).
  assert (own_generator w3) as Hown3.
  { unfold own_generator, w3, assign. cbn [attrs].
    rewrite lookup_insert_ne, Hva by discriminate. cbn [assign attrs].
    rewrite lookup_insert_ne by discriminate. exact Hown. }
  enough (np_random (generated_matrices self (Z.of_nat (nd_shape a).2) w3).1 = np_random w)
    as Hgen.
  { destruct (generated_matrices self _ w3) as [w4 [e4|[[ff rec] b]]]; exact Hgen. }
  unfold generated_matrices, check_random_state. rewrite Hseed.
  destruct ((0 <=? seed) && (seed <? 2 ^ 32)); [|exact Hv].
  rewrite (bind_inr _ _ _ w3 (Fresh (RandomState seed))) by reflexivity.
  destruct (feedforward_weight_matrix_fresh self (Z.of_nat (nd_shape a).2)
              (n_components self) (RandomState seed)) as (R & HR & _).
  rewrite bind_unfold, (HR w3) by apply lookup_insert_eq.
  destruct R as [e|[ff r]]; [exact Hv|].
  rewrite bind_unfold, reservoir_weights_raises. cbn [fst].
  destruct (keeps_np_random_reservoir_weights_draw w3 Hown3) as (_ & -> & _). exact Hv.
Qed.

(** ** [transform], row by row *)

(** What [check_array] accepts. *)
Lemma check_array_accepts (X : list (list F)) (w : world F G) (m : nat) :
  (check_array (C:=C) X w).2 = inr (mk_ndarray (length X, m) X)
  ↔ X ≠ [] ∧ (0 < m)%nat
    ∧ forallb (λ r, Nat.eqb (length r) m) X = true
    ∧ forallb (forallb isfinite) X = true.
Proof.
  unfold check_array. destruct X as [|r X].
  { split; [discriminate|]. intros [Hne _]. contradiction. }
  split.
  - destruct (forallb _ (r :: X)) eqn:Hrect; cbn [negb]; [|discriminate].
    destruct (forallb (forallb isfinite) (r :: X)) eqn:Hfin; cbn [negb]; [|discriminate].
    destruct (Nat.eqb_spec (length r) 0); [discriminate|].
    intros [= <-]. repeat split; [discriminate|lia|exact Hrect].
  - intros (_ & Hm & Hrect & Hfin).
    assert (length r = m) as <-
      by (cbn [forallb] in Hrect; apply andb_true_iff in Hrect as [Hr _];
          apply Nat.eqb_eq, Hr).
    rewrite Hrect, Hfin. cbn [negb].
    destruct (Nat.eqb_spec (length r) 0); [lia|]. reflexivity.
Qed.

(** The rows that [transform] returns on a fitted instance. *)
Lemma transform_rows (self : LayerConfig F) (X : list (list F)) (w : world F G)
    (W : matrix F) (b : list F) (act : F → F) (n_comp n_feat : nat) (a : ndarray F) :
  attrs w !! "input_weights_" = Some (VMatrix W) →
  attrs w !! "bias_weights_" = Some (VVector b) →
  matrix_shape W = (n_comp, n_feat) →
  length b = n_comp →
  ACTIVATIONS !! activation_function self = Some act →
  (check_array (C:=C) X w).2 = inr a →
  (nd_shape a).2 = n_feat →
  ∃ Y, transform (C:=C) self X w = (w, inr Y)
       ∧ nd_rows Y
         = map (λ x, map act (map (λ xb, fadd xb.1 xb.2)
                                (zip (map (dot x (transpose W)) (seq 0 n_comp)) b))) X.
Proof.
  intros HW Hb Hshape Hlen Hact Hx Hcols. unfold transform.
  pose proof (check_array_world X w) as Hw1.
  destruct (check_array X w) as [w1 r] eqn:Hc. cbn in Hx, Hw1. subst w1 r.
  apply (f_equal snd) in Hc as Hc2. cbn in Hc2.
  apply check_array_success in Hc2 as (m & -> & Hrows & Hm & HX).
  cbn in Hcols. subst m.
  rewrite (bind_inr _ _ _ _ _ Hc).
  rewrite (bind_inr _ _ _ _ _ (check_is_fitted_attribute w _ _ HW eq_refl)).
  unfold getattr_matrix, getattr_vector, getattr, safe_sparse_dot, add_broadcast.
  unfold mbind, M_bind, bind, ret. rewrite HW. cbn [nd_shape snd fst].
  rewrite matrix_shape_transpose, Hshape. cbn [snd fst].
  rewrite Nat.eqb_refl. cbn [negb]. rewrite Hb.
  cbn [nd_shape snd fst]. rewrite Hlen, Nat.eqb_refl, Hact.
  eexists. split; [reflexivity|]. cbn [apply_activation nd_shape nd_rows].
  rewrite !map_map. reflexivity.
Qed.

(** X12. On a fitted instance [transform] works row by row: when it
    accepts two inputs of the fitted width, it accepts the one stacked
    on the other, and the rows it returns for the stack are the rows
    for the first followed by the rows for the second. *)
Theorem transform_row_by_row (self : LayerConfig F) (X1 X2 : list (list F)) (w : world F G)
    (W : matrix F) (b : list F) (act : F → F) (a1 a2 : ndarray F) :
  attrs w !! "input_weights_" = Some (VMatrix W) →
  attrs w !! "bias_weights_" = Some (VVector b) →
  length b = (matrix_shape W).1 →
  ACTIVATIONS !! activation_function self = Some act →
  (check_array (C:=C) X1 w).2 = inr a1 →
  (check_array (C:=C) X2 w).2 = inr a2 →
  (nd_shape a1).2 = (matrix_shape W).2 →
  (nd_shape a2).2 = (matrix_shape W).2 →
  ∃ Y1 Y2 Y,
    transform (C:=C) self X1 w = (w, inr Y1)
    ∧ transform (C:=C) self X2 w = (w, inr Y2)
    ∧ transform (C:=C) self (X1 ++ X2) w = (w, inr Y)
    ∧ nd_rows Y = nd_rows Y1 ++ nd_rows Y2.
Proof.
  intros HW Hb Hlen Hact Ha1 Ha2 Hc1 Hc2.
  destruct (matrix_shape W) as [n_comp n_feat] eqn:Hshape. cbn [fst snd] in *.
  destruct (transform_rows self X1 w W b act n_comp n_feat a1 HW Hb Hshape Hlen Hact Ha1 Hc1)
    as (Y1 & HY1 & Hrows1).
  destruct (transform_rows self X2 w W b act n_comp n_feat a2 HW Hb Hshape Hlen Hact Ha2 Hc2)
    as (Y2 & HY2 & Hrows2).
  assert ((check_array (C:=C) (X1 ++ X2) w).2
          = inr (mk_ndarray (length (X1 ++ X2), n_feat) (X1 ++ X2))) as Ha.
  { pose proof Ha1 as Hs1. pose proof Ha2 as Hs2.
    apply check_array_success in Hs1 as (m1 & -> & _). cbn in Hc1. subst m1.
    apply check_array_success in Hs2 as (m2 & -> & _). cbn in Hc2. subst m2.
    apply check_array_accepts in Ha1 as (Hne & Hm & Hrect1 & Hfin1).
    apply check_array_accepts in Ha2 as (_ & _ & Hrect2 & Hfin2).
    apply check_array_accepts. rewrite !forallb_app, Hrect1, Hrect2, Hfin1, Hfin2.
    repeat split; [|exact Hm]. destruct X1; [contradiction|discriminate]. }
  destruct (transform_rows self (X1 ++ X2) w W b act n_comp n_feat _ HW Hb Hshape Hlen Hact
              Ha eq_refl) as (Y & HY & Hrows).
  exists Y1, Y2, Y. repeat split; try assumption.
  rewrite Hrows, Hrows1, Hrows2. apply map_app.
Qed.

End Properties.

(** * The properties on the example instance *)

(** The example generator obeys numpy's laws. *)
#[export] Instance q_numpy_laws : NumpyLaws Q Q nat.
Proof.
  constructor.
  - intros n g. cbn. rewrite length_map. apply length_seq.
  - intros n g. cbn. rewrite length_map. apply length_seq.
  - intros n g. cbn. unfold rotate.
    rewrite Permutation_app_comm, firstn_skipn. reflexivity.
  - intros n g u Hu. cbn in Hu. apply in_map_iff in Hu as (i & <- & _).
    pose proof (Nat.mod_upper_bound (g + i) 4 ltac:(lia)) as Hlt.
    cbn. unfold Qle, Qlt. cbn. lia.
  - intros u Hu0 Hu1. cbn in *. split; lra.
Qed.

(** ** [transform] *)

(** C10 does not hold as the specification states it: on the empty
    input a new instance raises [check_array]'s [ValueError], not
    [NotFittedError]; and after a [fit] that raised in parameter
    validation, [transform] on a valid input raises [AttributeError]. *)
Lemma transform_before_fit_counterexample :
  unfitted constructed
  ∧ transform (layer 2 0 (Some 7)) [] constructed
    = (constructed, inl (ValueError "Expected 2D array, got 1D array instead" []))
  ∧ (transform (layer 2 0 (Some 7)) [] constructed).2 ≠ inl NotFittedError
  ∧ fit (layer 5 0 (Some 7)) example_X constructed
    = (assign "n_features_in_" (VInt 2) constructed,
       inl (ValueError "k_in must not be larger than %s, got %s" [FInt 2; FInt 5]))
  ∧ transform (layer 5 0 (Some 7)) example_X (assign "n_features_in_" (VInt 2) constructed)
    = (assign "n_features_in_" (VInt 2) constructed, inl (AttributeError "input_weights_")).
Proof.
  split; [intros name [v Hv]; unfold constructed in Hv; cbn [attrs] in Hv;
          rewrite lookup_empty in Hv; discriminate|].
  split; [reflexivity|]. split; [discriminate|].
  split; vm_compute; reflexivity.
Qed.

(** On a new instance with the empty and with a two by two input, and
    on the instance a [fit] left that raised in parameter validation. *)
Lemma transform_unfitted_witness :
  transform (layer 2 0 (Some 7)) [] constructed
  = (constructed, inl (ValueError "Expected 2D array, got 1D array instead" []))
  ∧ transform (layer 2 0 (Some 7)) example_X constructed = (constructed, inl NotFittedError)
  ∧ transform (layer 5 0 (Some 7)) example_X (assign "n_features_in_" (VInt 2) constructed)
    = (assign "n_features_in_" (VInt 2) constructed, inl (AttributeError "input_weights_")).
Proof.
  destruct (transform_unfitted (layer 2 0 (Some 7)) [] constructed) as (Hrejected & _).
  destruct (transform_unfitted (layer 2 0 (Some 7)) example_X constructed)
    as (_ & Hunfitted & _).
  destruct (transform_unfitted (layer 5 0 (Some 7)) example_X
              (assign "n_features_in_" (VInt 2) constructed))
    as (_ & _ & Hpartial).
  split; [apply Hrejected; reflexivity|]. split.
  - apply (Hunfitted (mk_ndarray (2%nat, 2%nat) example_X)); [reflexivity|].
    intros name [v Hv]. unfold constructed in Hv. cbn [attrs] in Hv.
    rewrite lookup_empty in Hv. discriminate.
  - apply (Hpartial (mk_ndarray (2%nat, 2%nat) example_X) "n_features_in_"%string (VInt 2));
      reflexivity.
Defined.

(** On the fitted instance written out above. *)
Lemma transform_affine_witness :
  ∃ Y, transform (layer 2 0 None) [[1; 1]]%Q fitted_example = (fitted_example, inr Y)
       ∧ nd_shape Y = (1%nat, 2%nat)
       ∧ length (nd_rows Y) = 1%nat
       ∧ Forall (λ r, length r = 2%nat) (nd_rows Y)
       ∧ ∀ i j, (i < 1)%nat → (j < 2)%nat →
           nth j (nth i (nd_rows Y) []) 0%Q
           = affine_entry [[1; 1]]%Q (Dense (mk_ndarray (2%nat, 2%nat) [[1; 2]; [3; 4]]%Q))
               [0; 1]%Q i j.
Proof.
  exact (transform_affine (layer 2 0 None) [[1; 1]]%Q fitted_example
           (Dense (mk_ndarray (2%nat, 2%nat) [[1; 2]; [3; 4]]%Q)) [0; 1]%Q (λ x, x)
           2%nat 2%nat (mk_ndarray (1%nat, 2%nat) [[1; 1]]%Q)
           eq_refl eq_refl eq_refl eq_refl eq_refl eq_refl eq_refl).
Defined.

(** ** The feedforward weights *)


(** ** [fit] *)

(** C6 does not hold as the specification states it. On a new
    instance, which [check_is_fitted] rejects, a [fit] that raises in
    validation leaves [n_features_in_], and a [fit] that raises in
    weight generation leaves [n_components_] as well; in both cases
    the instance is not what it was and passes [check_is_fitted]. *)
Lemma failed_fit_counterexample :
  unfitted constructed
  ∧ check_is_fitted (C:=Q) constructed = (constructed, inl NotFittedError)
  ∧ fit (layer 5 0 (Some 7)) example_X constructed
    = (assign "n_features_in_" (VInt 2) constructed,
       inl (ValueError "k_in must not be larger than %s, got %s" [FInt 2; FInt 5]))
  ∧ check_is_fitted (C:=Q) (assign "n_features_in_" (VInt 2) constructed)
    = (assign "n_features_in_" (VInt 2) constructed, inr tt)
  ∧ assign "n_features_in_" (VInt 2) constructed ≠ constructed
  ∧ fit (layer 2 0 (Some 7)) example_X constructed
    = (at_generation constructed, inl (NameError "ArpackNoConvergence"))
  ∧ attrs (at_generation constructed) !! "n_components_" = Some (VInt 3)
  ∧ check_is_fitted (C:=Q) (at_generation constructed) = (at_generation constructed, inr tt)
  ∧ at_generation constructed ≠ constructed.
Proof.
  split; [intros name [v Hv]; unfold constructed in Hv; cbn [attrs] in Hv;
          rewrite lookup_empty in Hv; discriminate|].
  split; [reflexivity|]. split; [vm_compute; reflexivity|].
  split; [vm_compute; reflexivity|].
  split; [intros Heq; apply (f_equal (λ w, attrs w !! "n_features_in_")) in Heq;
          discriminate Heq|].
  split; [vm_compute; reflexivity|].
  split; [reflexivity|]. split; [vm_compute; reflexivity|].
  intros Heq. apply (f_equal (λ w, attrs w !! "n_components_")) in Heq. discriminate Heq.
Qed.

(** On the [fit] that raises in validation. *)
Lemma fit_failure_state_witness :
  fit (layer 5 0 (Some 7)) example_X constructed
  = (assign "n_features_in_" (VInt 2) constructed,
     inl (ValueError "k_in must not be larger than %s, got %s" [FInt 2; FInt 5]))
  ∧ attrs (assign "n_features_in_" (VInt 2) constructed) !! "input_weights_"
    = attrs constructed !! "input_weights_"
  ∧ attrs (assign "n_features_in_" (VInt 2) constructed) !! "bias_weights_"
    = attrs constructed !! "bias_weights_"
  ∧ attrs (assign "n_features_in_" (VInt 2) constructed) !! "n_features_in_"
    = Some (VInt 2)
  ∧ check_is_fitted (C:=Q) (assign "n_features_in_" (VInt 2) constructed)
    = (assign "n_features_in_" (VInt 2) constructed, inr tt).
Proof.
  assert (fit (layer 5 0 (Some 7)) example_X constructed
          = (assign "n_features_in_" (VInt 2) constructed,
             inl (ValueError "k_in must not be larger than %s, got %s" [FInt 2; FInt 5])))
    as Hfit by (vm_compute; reflexivity).
  split; [exact Hfit|].
  destruct (fit_failure_state _ _ _ _ _ Hfit) as (_ & Hkept & Hrecorded & _).
  split; [apply Hkept; discriminate|]. split; [apply Hkept; discriminate|].
  apply (Hrecorded (mk_ndarray (2%nat, 2%nat) example_X)). reflexivity.
Defined.



(** ** The randomness of the two blocks *)



(** ** The recurrent weights *)




(** On a reservoir of size 2: the first attempt of the first [fit]. *)
Lemma first_attempt_raises_witness :
  reservoir_weights (at_generation (with_reservoir 2 5))
  = (drawn 2 9, inl (NameError "ArpackNoConvergence"))
  ∧ output (drawn 2 9) = []
  ∧ fit (layer 2 0 (Some 7)) example_X (with_reservoir 2 5)
    = (drawn 2 9, inl (NameError "ArpackNoConvergence"))
  ∧ (fit (layer 2 0 (Some 7)) example_X (with_reservoir 2 5)).2 ≠ inr tt.
Proof.
  destruct (first_attempt_raises (at_generation (with_reservoir 2 5)))
    as (_ & Hraises & _ & _).
  destruct (first_attempt_raises (with_reservoir 2 5)) as (_ & _ & _ & Hnever).
  assert (reservoir_weights_draw (C:=Q) (at_generation (with_reservoir 2 5))
          = (drawn 2 9, inr raw_5)) as Hdraw by (vm_compute; reflexivity).
  rewrite Hdraw in Hraises.
  split; [exact Hraises|]. split; [reflexivity|].
  split; [vm_compute; reflexivity|apply Hnever].
Defined.

(** ** Further properties, on the example instance *)


(** On a layer as the constructor leaves it. *)
Lemma fit_raises_name_error_witness :
  (fit (layer 2 0 (Some 7)) example_X constructed).2 = inl (NameError "ArpackNoConvergence").
Proof.
  apply (fit_raises_name_error (layer 2 0 (Some 7)) example_X constructed
           (mk_ndarray (2%nat, 2%nat) example_X)).
  - reflexivity.
  - unfold valid_parameters. cbn.
    split; [right; lia|]. split; [lia|]. split; [lia|].
    split; [exists (λ x : Q, x); reflexivity|]. split; [right; lia|lia].
  - cbn. lia.
  - intros _. cbn. lia.
Defined.

(** With [k_rec = 4] on three components and [k_in = 2]. *)
Lemma fit_k_rec_too_large_witness :
  (fit (mk_config 3 true 1%Q 2 0%Q "identity" 0%Q 4 false None) example_X constructed).2
  = inl (ValueError "k_in must not be larger than %s, got %s" [FInt 3; FInt 2]).
Proof.
  apply (fit_k_rec_too_large (mk_config 3 true 1%Q 2 0%Q "identity" 0%Q 4 false None)
           example_X constructed (mk_ndarray (2%nat, 2%nat) example_X)).
  - reflexivity.
  - right. cbn. lia.
  - cbn. lia.
  - exists (λ x : Q, x). reflexivity.
  - cbn. lia.
Defined.

(** With a subclass whose method returns an empty matrix. *)
Lemma fit_stores_before_contract_witness :
  fit (H2 := λ _ _ _, mret (Dense (mk_ndarray (0%nat, 0%nat) []), []))
    (layer 2 0 None) example_X constructed
  = (assign "bias_weights_" (VVector [])
       (assign "input_weights_" (VMatrix (Dense (mk_ndarray (0%nat, 0%nat) [])))
          (at_generation constructed)),
     inl (AssertionError
            "An error has occurred the self.components_ matrix has not the proper shape."))
  ∧ check_is_fitted (C:=Q)
      (assign "bias_weights_" (VVector [])
         (assign "input_weights_" (VMatrix (Dense (mk_ndarray (0%nat, 0%nat) [])))
            (at_generation constructed)))
    = (assign "bias_weights_" (VVector [])
         (assign "input_weights_" (VMatrix (Dense (mk_ndarray (0%nat, 0%nat) [])))
            (at_generation constructed)),
       inr tt).
Proof.
  assert (_validate_parameters (C:=Q) (layer 2 0 None) 2
            (assign "n_features_in_" (VInt 2) constructed)
          = (assign "n_features_in_" (VInt 2) constructed, inr tt)) as Hv
    by (vm_compute; reflexivity).
  destruct (fit_stores_before_contract
              (λ _ _ _, mret (Dense (mk_ndarray (0%nat, 0%nat) []), []))
              (layer 2 0 None) example_X constructed
              (assign "n_features_in_" (VInt 2) constructed) (at_generation constructed)
              (mk_ndarray (2%nat, 2%nat) example_X) (Dense (mk_ndarray (0%nat, 0%nat) [])) []
              3) as [_ Hlate]; [reflexivity|exact Hv|reflexivity|reflexivity|].
  apply Hlate. intros [Hrows _]. discriminate Hrows.
Defined.

(** On a reservoir of size 2 with one entry per row. *)
Lemma reservoir_fan_in_witness :
  ∃ s g',
    reservoir_weights_draw (C:=Q) (with_reservoir 2 5)
    = (assign "_random_state" (VRandomState g') (with_reservoir 2 5), inr (Sparse s))
    ∧ csc_shape s = (2%nat, 2%nat)
    ∧ csc_data s = (randn (2 * 1)%nat 5%nat).1
    ∧ ∀ en, (en < 2)%nat →
        length (row_columns s en) = 1%nat
        ∧ NoDup (row_columns s en)
        ∧ Forall (λ c, (c < 2)%nat) (row_columns s en)
        ∧ ∃ g'', row_columns s en = firstn 1 (permutation 2 g'').1.
Proof.
  apply (reservoir_fan_in 2 1 (with_reservoir 2 5) 5%nat); [reflexivity..|lia|cbn; lia].
Defined.

(** On a reservoir of size 2 with [k_res = 3]. *)
Lemma unchecked_k_res_raises_witness :
  (reservoir_weights_draw (C:=Q) (assign "k_res" (VInt 3) (with_reservoir 2 5))).2
  = inl (ValueError "could not broadcast input array from shape (%s,) into shape (%s,)"
           [FInt 2; FInt 3])
  ∧ (reservoir_weights (assign "k_res" (VInt 3) (with_reservoir 2 5))).2
    = inl (NameError "ArpackNoConvergence").
Proof.
  apply (unchecked_k_res_raises 2 3 (assign "k_res" (VInt 3) (with_reservoir 2 5)) 5%nat);
    [reflexivity..|lia|cbn; lia].
Defined.

(** With the seed 7, on an instance with a generator of its own. *)
Lemma fit_seeded_keeps_np_random_witness :
  attrs (with_reservoir 2 5) !! "_random_state" = Some (VRandomState 5%nat)
  ∧ np_random (fit (layer 2 0 (Some 7)) example_X (with_reservoir 2 5)).1
    = np_random (with_reservoir 2 5).
Proof.
  split; [reflexivity|].
  apply (fit_seeded_keeps_np_random (layer 2 0 (Some 7)) 7 example_X (with_reservoir 2 5));
    [reflexivity|].
  intros Halias. discriminate Halias.
Defined.

(** On the fitted instance written out above, with two inputs of one
    row. *)
Lemma transform_row_by_row_witness :
  ∃ Y1 Y2 Y,
    transform (C:=Q) (layer 2 0 None) [[1; 1]]%Q fitted_example = (fitted_example, inr Y1)
    ∧ transform (C:=Q) (layer 2 0 None) [[0; 1]]%Q fitted_example = (fitted_example, inr Y2)
    ∧ transform (C:=Q) (layer 2 0 None) ([[1; 1]] ++ [[0; 1]])%Q fitted_example
      = (fitted_example, inr Y)
    ∧ nd_rows Y = nd_rows Y1 ++ nd_rows Y2.
Proof.
  exact (transform_row_by_row (layer 2 0 None) [[1; 1]]%Q [[0; 1]]%Q fitted_example
           (Dense (mk_ndarray (2%nat, 2%nat) [[1; 2]; [3; 4]]%Q)) [0; 1]%Q (λ x, x)
           (mk_ndarray (1%nat, 2%nat) [[1; 1]]%Q) (mk_ndarray (1%nat, 2%nat) [[0; 1]]%Q)
           eq_refl eq_refl eq_refl eq_refl eq_refl eq_refl eq_refl eq_refl).
Defined.

